(** * SocketService: the presence / broadcast coordinator of api-streaming

    A shallow embedding of [src/services/socket.service.ts].  The service is an
    event-driven Socket.IO server: every handler is embedded as a function
    from the server state to a new state plus the list of messages it emits.

    Conventions of the embedding
    - a JavaScript string is the list of its UTF-16 code units;
    - a payload ([data: any]) is a [JsValue]; [JSON.parse] is a parameter of
      the service;
    - the handshake ([setupAuthMiddleware]) is passed when a connection
      event carries the verified [JwtPayload];
    - a handler runs to completion before the next event is taken (the
      [await] points of one handler are not interleaved with other events);
    - timeouts run on a virtual clock in milliseconds;
    - log output ([console.log]) and wall-clock fields ([timestamp],
      [lastHeartbeat], [createdAt], [updatedAt]) are left out. *)

From Stdlib Require Import String Ascii.
From stdpp Require Import gmap list.

Set Warnings "-register-all".
Open Scope N_scope.

(** ** JavaScript values *)

Abbreviation jsstring := (list N).

Module Js.

(** Code units of a source literal: the literal is read as UTF-8 (the
    encoding of this file and of the TypeScript source) and re-encoded as
    UTF-16. *)
Fixpoint utf16_of_utf8 (bs : list N) : jsstring :=
  match bs with
  | [] => []
  | b :: r =>
      if b <? 128 then b :: utf16_of_utf8 r
      else if b <? 224 then
        match r with
        | b2 :: r' =>
            N.lor (N.shiftl (N.land b 31) 6) (N.land b2 63) :: utf16_of_utf8 r'
        | [] => []
        end
      else if b <? 240 then
        match r with
        | b2 :: b3 :: r' =>
            N.lor (N.shiftl (N.land b 15) 12)
              (N.lor (N.shiftl (N.land b2 63) 6) (N.land b3 63))
            :: utf16_of_utf8 r'
        | _ => []
        end
      else
        match r with
        | b2 :: b3 :: b4 :: r' =>
            let cp :=
              N.lor (N.shiftl (N.land b 7) 18)
                (N.lor (N.shiftl (N.land b2 63) 12)
                   (N.lor (N.shiftl (N.land b3 63) 6) (N.land b4 63))) in
            let v := cp - 65536 in
            (55296 + N.shiftr v 10) :: (56320 + N.land v 1023) :: utf16_of_utf8 r'
        | _ => []
        end
  end.

Definition lit (s : string) : jsstring :=
  utf16_of_utf8 (map N_of_ascii (list_ascii_of_string s)).

Definition eqb (a b : jsstring) : bool := bool_decide (a = b).

(** [any]-typed data as it arrives from the transport or from [JSON.parse].
    A number is carried as its [String(n)] rendering: the handlers observe
    of a number only its type, its truthiness and its rendering in a
    template literal. *)
Inductive JsValue : Type :=
| JUndefined
| JNull
| JBool (b : bool)
| JNumber (rendering : jsstring)
| JString (s : jsstring)
| JArray (elems : list JsValue)
| JObject (props : list (jsstring * JsValue)).

Inductive JsType := TUndefined | TObject | TBoolean | TNumber | TString.

Definition typeof (v : JsValue) : JsType :=
  match v with
  | JUndefined => TUndefined
  | JNull => TObject
  | JBool _ => TBoolean
  | JNumber _ => TNumber
  | JString _ => TString
  | JArray _ => TObject
  | JObject _ => TObject
  end.

Definition is_string (v : JsValue) : bool :=
  match v with JString _ => true | _ => false end.

(** [!!v] *)
Definition truthy (v : JsValue) : bool :=
  match v with
  | JUndefined | JNull => false
  | JBool b => b
  | JNumber r => negb (eqb r (lit "0") || eqb r (lit "NaN"))
  | JString s => negb (eqb s [])
  | JArray _ | JObject _ => true
  end.

Fixpoint own_property (k : jsstring) (props : list (jsstring * JsValue))
  : option JsValue :=
  match props with
  | [] => None
  | (k', v) :: rest => if eqb k k' then Some v else own_property k rest
  end.

(** [v.k] for the two data keys the handlers read ([streamUid],
    [message], [isTyping]); none of them lives on a prototype, so only an
    object's own properties can answer.  [None] is the TypeError of reading
    a property of [null] or [undefined]. *)
Definition get (v : JsValue) (k : jsstring) : option JsValue :=
  match v with
  | JUndefined | JNull => None
  | JObject props => Some (default JUndefined (own_property k props))
  | _ => Some JUndefined
  end.

Fixpoint join (sep : jsstring) (parts : list jsstring) : jsstring :=
  match parts with
  | [] => []
  | [p] => p
  | p :: rest => p ++ sep ++ join sep rest
  end.

Fixpoint sequence {A} (l : list (option A)) : option (list A) :=
  match l with
  | [] => Some []
  | x :: r =>
      match x, sequence r with
      | Some a, Some r' => Some (a :: r')
      | _, _ => None
      end
  end.

(** [String(v)] as a template literal computes it; [None] is the TypeError
    raised for an object whose own [toString] property shadows
    [Object.prototype.toString] with a value that cannot be called. *)
Fixpoint toString (v : JsValue) : option jsstring :=
  match v with
  | JUndefined => Some (lit "undefined")
  | JNull => Some (lit "null")
  | JBool true => Some (lit "true")
  | JBool false => Some (lit "false")
  | JNumber r => Some r
  | JString s => Some s
  | JArray elems =>
      let elem_string :=
        fix go (l : list JsValue) : list (option jsstring) :=
          match l with
          | [] => []
          | JUndefined :: r | JNull :: r => Some [] :: go r
          | e :: r => toString e :: go r
          end in
      join (lit ",") <$> sequence (elem_string elems)
  | JObject props =>
      match own_property (lit "toString") props with
      | Some _ => None
      | None => Some (lit "[object Object]")
      end
  end.

(** WhiteSpace and LineTerminator code units, the ones [trim] strips. *)
Definition is_whitespace (c : N) : bool :=
  (c =? 9) || (c =? 10) || (c =? 11) || (c =? 12) || (c =? 13) || (c =? 32)
  || (c =? 160) || (c =? 5760) || ((8192 <=? c) && (c <=? 8202))
  || (c =? 8232) || (c =? 8233) || (c =? 8239) || (c =? 8287)
  || (c =? 12288) || (c =? 65279).

Fixpoint trimStart (s : jsstring) : jsstring :=
  match s with
  | c :: r => if is_whitespace c then trimStart r else s
  | [] => []
  end.

Definition trimEnd (s : jsstring) : jsstring := rev (trimStart (rev s)).

Definition trim (s : jsstring) : jsstring := trimEnd (trimStart s).

(** [\w] *)
Definition is_word (c : N) : bool :=
  ((48 <=? c) && (c <=? 57)) || ((65 <=? c) && (c <=? 90))
  || ((97 <=? c) && (c <=? 122)) || (c =? 95).

(** [s.replace(/(\w+):/g, '"$1":')]: every maximal run of word characters
    that is directly followed by a colon is put between double quotes.
    [run] is the word run read so far and not yet written out. *)
Fixpoint quote_bare_keys_from (run : jsstring) (s : jsstring) : jsstring :=
  match s with
  | [] => run
  | c :: r =>
      if is_word c then quote_bare_keys_from (run ++ [c]) r
      else if (c =? 58) && negb (eqb run []) then
        34 :: run ++ 34 :: 58 :: quote_bare_keys_from [] r
      else run ++ c :: quote_bare_keys_from [] r
  end.

Definition quote_bare_keys (s : jsstring) : jsstring :=
  quote_bare_keys_from [] s.

End Js.

Import Js.

(** ** Data model *)

(** The verified identity of a connection ([JwtPayload] of [utils/jwt]). *)
Module Jwt.
Record JwtPayload := mk {
  id : jsstring;
  role : jsstring;
  metroUsername : option jsstring;
  displayName : jsstring;
  avatar : option jsstring;
}.
End Jwt.
Abbreviation JwtPayload := Jwt.JwtPayload.

(** The [Stream] table behind [prisma.stream], in storage order, with the
    columns the service filters on or selects. *)
Module Prisma.

Record Stream := mk {
  uid : jsstring;
  title : jsstring;
  userId : jsstring;
  status : option jsstring;
  webRTCPlaybackUrl : option jsstring;
  displayName : option jsstring;
  metroUsername : option jsstring;
}.

Definition set_status (v : jsstring) (r : Stream) : Stream :=
  mk (uid r) (title r) (userId r) (Some v) (webRTCPlaybackUrl r)
     (displayName r) (metroUsername r).

(** The outcome of a client call: a value, or a rejected promise. *)
Inductive Result (A : Type) :=
| Ok (a : A)
| Throws.
Arguments Ok {A} a.
Arguments Throws {A}.

Definition has_uid (s : jsstring) (r : Stream) : bool := eqb (uid r) s.
Definition has_status (s : jsstring) (r : Stream) : bool :=
  match status r with Some v => eqb v s | None => false end.
Definition has_userId (s : jsstring) (r : Stream) : bool := eqb (userId r) s.

(** [findFirst({ where: { uid, ...cond } })].  The [uid] handed over is
    whatever the payload held: a string filters on the column, [undefined]
    leaves the column out of the filter, and any other value is refused by
    the client's argument validation. *)
Definition findFirst (uid : JsValue) (cond : Stream -> bool)
    (table : list Stream) : Result (option Stream) :=
  match uid with
  | JString s => Ok (find (fun r => has_uid s r && cond r) table)
  | JUndefined => Ok (find cond table)
  | _ => Throws
  end.

(** [update({ where: { uid }, data: { status } })]: [uid] is the primary
    key; the call is rejected when it is not a string or names no row. *)
Definition update (uid : JsValue) (status : jsstring) (table : list Stream)
  : Result (list Stream) :=
  match uid with
  | JString s =>
      if existsb (has_uid s) table
      then Ok (map (fun r => if has_uid s r then set_status status r else r) table)
      else Throws
  | _ => Throws
  end.

(** [findMany({ where: { status } })] *)
Definition findMany (status : jsstring) (table : list Stream) : list Stream :=
  List.filter (has_status status) table.

End Prisma.
Abbreviation Stream := Prisma.Stream.

(** One live transport session, with the properties the service attaches to
    the socket object ([delete socket.p] is [false] / [None]). *)
Module Socket.
Record AuthenticatedSocket := mk {
  id : jsstring;
  user : JwtPayload;
  connected : bool;
  isBroadcaster : bool;
  streamUid : option jsstring;
  watchingStream : option jsstring;
  isAutoViewer : bool;
}.

Definition fresh (id : jsstring) (user : JwtPayload) : AuthenticatedSocket :=
  mk id user true false None None false.

Definition set_watching (w : option jsstring) (a : bool)
    (s : AuthenticatedSocket) : AuthenticatedSocket :=
  mk (id s) (user s) (connected s) (isBroadcaster s) (streamUid s) w a.

Definition set_broadcasting (b : bool) (u : option jsstring)
    (s : AuthenticatedSocket) : AuthenticatedSocket :=
  mk (id s) (user s) (connected s) b u (watchingStream s) (isAutoViewer s).
End Socket.
Abbreviation AuthenticatedSocket := Socket.AuthenticatedSocket.

(** An entry of [activeStreamers]. *)
Record StreamerInfo := { socketId : jsstring; tracked : jsstring }.

(** *** Emitted messages *)

Inductive Target :=
| ToSocket (id : jsstring)                   (* socket.emit *)
| ToAll                                      (* io.emit *)
| ToRoom (room : jsstring)                   (* io.in(room).emit *)
| ToRoomExcept (room : jsstring) (id : jsstring). (* socket.to(room).emit *)

Record PublicUser := {
  pu_id : jsstring;
  pu_displayName : jsstring;
  pu_metroUsername : option jsstring;
  pu_role : option jsstring;
  pu_avatar : jsstring;
  pu_socketId : option jsstring;
  pu_reason : option jsstring;
}.

Record StreamView := {
  sv_stream : Stream;
  viewersCount : nat;
  streamerAvatar : jsstring;
}.

Inductive ViewerAction := Joined | Left.

Inductive Payload :=
| ErrorReply (event : option jsstring) (message : jsstring)
| UserInfo (info : PublicUser)
| StreamsList (streams : list StreamView) (count : nat) (isViewerCountUpdate : bool)
| StreamStarted (streamUid : JsValue) (status : jsstring)
| StreamEnded (streamUid : JsValue) (message reason : jsstring) (status : option jsstring)
| ViewerUpdate (streamUid : JsValue) (action : ViewerAction) (viewer : PublicUser)
    (currentViewers : list PublicUser) (totalCount : nat)
| NewMessage (streamUid : JsValue) (user : PublicUser) (message : jsstring)
| UserTyping (user : PublicUser) (isTyping : JsValue).

Record Emission := { target : Target; event : string; payload : Payload }.

(** *** Server state *)

(** The timers of the event loop: a virtual clock in milliseconds and the
    armed timeouts, each with its handle and the time it is due. *)
Record Timers := {
  now : N;
  armed : list (N * N);
  next_handle : N;
}.

Record State := {
  sockets : gmap jsstring AuthenticatedSocket;     (* io.sockets.sockets *)
  rooms : gmap jsstring (list jsstring);           (* adapter.rooms, members in join order *)
  table : list Stream;                             (* prisma.stream *)
  activeStreamers : list (jsstring * StreamerInfo);(* Map, in insertion order *)
  broadcastTimeout : option N;
  timers : Timers;
}.

Definition with_sockets (v : gmap jsstring AuthenticatedSocket) (st : State) : State :=
  {| sockets := v; rooms := rooms st; table := table st;
     activeStreamers := activeStreamers st;
     broadcastTimeout := broadcastTimeout st; timers := timers st |}.

Definition with_rooms (v : gmap jsstring (list jsstring)) (st : State) : State :=
  {| sockets := sockets st; rooms := v; table := table st;
     activeStreamers := activeStreamers st;
     broadcastTimeout := broadcastTimeout st; timers := timers st |}.

Definition with_table (v : list Stream) (st : State) : State :=
  {| sockets := sockets st; rooms := rooms st; table := v;
     activeStreamers := activeStreamers st;
     broadcastTimeout := broadcastTimeout st; timers := timers st |}.

Definition with_activeStreamers (v : list (jsstring * StreamerInfo)) (st : State) : State :=
  {| sockets := sockets st; rooms := rooms st; table := table st;
     activeStreamers := v;
     broadcastTimeout := broadcastTimeout st; timers := timers st |}.

Definition with_timeout (h : option N) (t : Timers) (st : State) : State :=
  {| sockets := sockets st; rooms := rooms st; table := table st;
     activeStreamers := activeStreamers st;
     broadcastTimeout := h; timers := t |}.

(** The state of a freshly constructed service over a given [Stream] table. *)
Definition initial (streams : list Stream) : State :=
  {| sockets := ∅; rooms := ∅; table := streams; activeStreamers := [];
     broadcastTimeout := None;
     timers := {| now := 0; armed := []; next_handle := 0 |} |}.

(** ** Actions: state passing with an output of emitted messages *)

Definition Action := State -> State * list Emission.

Definition skip : Action := fun st => (st, []).

Definition seq (a b : Action) : Action :=
  fun st =>
    let '(st1, o1) := a st in
    let '(st2, o2) := b st1 in
    (st2, o1 ++ o2).

Notation "a ;;; b" := (seq a b) (at level 62, right associativity).

Definition modify (f : State -> State) : Action := fun st => (f st, []).

Definition emit (t : Target) (ev : string) (p : Payload) : Action :=
  fun st => (st, [{| target := t; event := ev; payload := p |}]).

(** ** The transport: rooms, membership, timers *)

Definition members (room : jsstring) (st : State) : list jsstring :=
  default [] (rooms st !! room).

(** [socket.join(room)]: a room is a set kept in insertion order. *)
Definition socket_join (id room : jsstring) (st : State) : State :=
  with_rooms
    (if bool_decide (id ∈ members room st) then rooms st
     else <[room := members room st ++ [id]]> (rooms st))
    st.

Definition without (id : jsstring) (ids : list jsstring) : list jsstring :=
  List.filter (fun i => negb (eqb i id)) ids.

(** [socket.leave(room)] *)
Definition socket_leave (id room : jsstring) (st : State) : State :=
  with_rooms (<[room := without id (members room st)]> (rooms st)) st.

(** What closing a socket does before the [disconnect] listeners run: the
    socket leaves every room and is dropped from [io.sockets.sockets]. *)
Definition socket_close (id : jsstring) (st : State) : State :=
  with_sockets (delete id (sockets st)) (with_rooms (without id <$> rooms st) st).

(** [io.in(room).fetchSockets()], in the room's order. *)
Definition fetchSockets (room : jsstring) (st : State) : list AuthenticatedSocket :=
  omap (fun i => sockets st !! i) (members room st).

Definition update_socket (id : jsstring)
    (f : AuthenticatedSocket -> AuthenticatedSocket) (st : State) : State :=
  with_sockets (alter f id (sockets st)) st.

Definition is_open (st : State) (id : jsstring) : bool :=
  bool_decide (is_Some (sockets st !! id)).

(** The connections a message reaches: the adapter walks the ids of the
    room and sends to each one that names an open socket. *)
Definition recipients (t : Target) (st : State) : list jsstring :=
  match t with
  | ToSocket id => if is_open st id then [id] else []
  | ToAll => map fst (map_to_list (sockets st))
  | ToRoom room => List.filter (is_open st) (members room st)
  | ToRoomExcept room id => without id (List.filter (is_open st) (members room st))
  end.

Definition clearTimeout (h : N) (t : Timers) : Timers :=
  {| now := now t;
     armed := List.filter (fun e => negb (fst e =? h)) (armed t);
     next_handle := next_handle t |}.

Definition setTimeout (delay : N) (t : Timers) : N * Timers :=
  (next_handle t,
   {| now := now t;
      armed := armed t ++ [(next_handle t, now t + delay)];
      next_handle := next_handle t + 1 |}).

(** ** The Active-Streamer Registry ([activeStreamers: Map]) *)

Fixpoint registry_get (k : jsstring) (m : list (jsstring * StreamerInfo))
  : option StreamerInfo :=
  match m with
  | [] => None
  | (k', v) :: r => if eqb k' k then Some v else registry_get k r
  end.

(** [Map.set]: an existing key keeps its place. *)
Fixpoint registry_set (k : jsstring) (v : StreamerInfo)
    (m : list (jsstring * StreamerInfo)) : list (jsstring * StreamerInfo) :=
  match m with
  | [] => [(k, v)]
  | (k', v') :: r =>
      if eqb k' k then (k, v) :: r else (k', v') :: registry_set k v r
  end.

Definition registry_delete (k : jsstring) (m : list (jsstring * StreamerInfo))
  : list (jsstring * StreamerInfo) :=
  List.filter (fun e => negb (eqb (fst e) k)) m.

Definition as_string (v : JsValue) : option jsstring :=
  match v with JString s => Some s | _ => None end.

Definition stream_room (name : jsstring) : jsstring := lit "stream-" ++ name.

Definition DEFAULT_AVATAR : jsstring :=
  lit "https://cdn-icons-png.flaticon.com/512/3541/3541871.png".

Definition getUserAvatar (user : JwtPayload) : jsstring :=
  match Jwt.avatar user with
  | Some a => if eqb a [] then DEFAULT_AVATAR else a
  | None => DEFAULT_AVATAR
  end.

(** The public identity sent along with viewer notifications. *)
Definition viewerInfo (s : AuthenticatedSocket) (reason : option jsstring) : PublicUser :=
  let u := Socket.user s in
  {| pu_id := Jwt.id u; pu_displayName := Jwt.displayName u;
     pu_metroUsername := Jwt.metroUsername u; pu_role := Some (Jwt.role u);
     pu_avatar := getUserAvatar u; pu_socketId := Some (Socket.id s);
     pu_reason := reason |}.

Definition is_viewer (s : AuthenticatedSocket) : bool :=
  negb (Socket.isBroadcaster s) && Socket.isAutoViewer s.

(** ** The service *)

Section SocketService.

(** [JSON.parse] of the runtime; [None] is its SyntaxError. *)
Variable JSON_parse : jsstring -> option JsValue.

Definition reply (socket : AuthenticatedSocket) (p : Payload) : Action :=
  emit (ToSocket (Socket.id socket)) "error" p.

(** [parseSocketData]: the value parsed, and the error it sends to the socket
    when it returns [null]. *)
Definition parseSocketData (data : JsValue) (socket : AuthenticatedSocket)
  : JsValue * list Emission :=
  match data with
  | JString text =>
      match JSON_parse text with
      | Some v => (v, [])
      | None =>
          match JSON_parse (quote_bare_keys text) with
          | Some v => (v, [])
          | None =>
              (JNull,
               [{| target := ToSocket (Socket.id socket); event := "error";
                   payload := ErrorReply None (lit "Formato de datos inválido") |}])
          end
      end
  | _ => (data, [])
  end.

(** The prologue of every parsing handler:
    [const parsedData = this.parseSocketData(data, socket); if (!parsedData) return;] *)
Definition with_parsed (data : JsValue) (socket : AuthenticatedSocket)
    (k : JsValue -> Action) : Action :=
  fun st =>
    let '(parsedData, out) := parseSocketData data socket in
    if truthy parsedData
    then let '(st', o) := k parsedData st in (st', out ++ o)
    else (st, out).

(** [const { k } = parsedData] on a truthy value. *)
Definition field (parsedData : JsValue) (k : string) : JsValue :=
  default JUndefined (get parsedData (lit k)).

(** [`stream-${streamUid}`]; [None] when the template literal throws. *)
Definition template_room (streamUid : JsValue) : option jsstring :=
  stream_room <$> toString streamUid.

Definition registerActiveStreamer (socketId : jsstring) (streamUid : JsValue) : Action :=
  match as_string streamUid with
  | Some s =>
      modify (fun st =>
        with_activeStreamers
          (registry_set s {| socketId := socketId; tracked := s |} (activeStreamers st)) st)
  | None => skip
  end.

Definition unregisterActiveStreamer (streamUid : JsValue) : Action :=
  match as_string streamUid with
  | Some s =>
      modify (fun st =>
        with_activeStreamers (registry_delete s (activeStreamers st)) st)
  | None => skip
  end.

Definition notifyStreamerAboutViewers (streamUid : JsValue)
    (action : ViewerAction) (viewer : PublicUser) : Action :=
  fun st =>
    match template_room streamUid with
    | Some room =>
        let socketsInRoom := fetchSockets room st in
        let currentViewers :=
          map (fun s => viewerInfo s None) (List.filter is_viewer socketsInRoom) in
        match List.find Socket.isBroadcaster socketsInRoom with
        | Some streamerSocket =>
            emit (ToSocket (Socket.id streamerSocket)) "viewer_update"
              (ViewerUpdate streamUid action viewer currentViewers
                 (length currentViewers)) st
        | None => (st, [])
        end
    | None => (st, [])
    end.

Definition streamerAvatarOf (socketsInRoom : list AuthenticatedSocket) : jsstring :=
  match List.find Socket.isBroadcaster socketsInRoom with
  | Some streamerSocket => getUserAvatar (Socket.user streamerSocket)
  | None => DEFAULT_AVATAR
  end.

Definition broadcastUpdatedStreamsList : Action :=
  fun st =>
    let activeStreams := Prisma.findMany (lit "active") (table st) in
    let streamsWithViewers :=
      map (fun stream =>
             let socketsInStreamRoom :=
               fetchSockets (stream_room (Prisma.uid stream)) st in
             {| sv_stream := stream;
                viewersCount := length (List.filter is_viewer socketsInStreamRoom);
                streamerAvatar := streamerAvatarOf socketsInStreamRoom |})
          activeStreams in
    emit ToAll "streams-list"
      (StreamsList streamsWithViewers (length streamsWithViewers) true) st.

Definition scheduleBroadcastUpdate : Action :=
  modify (fun st =>
    let cleared :=
      match broadcastTimeout st with
      | Some h => clearTimeout h (timers st)
      | None => timers st
      end in
    let '(h, t) := setTimeout 100 cleared in
    with_timeout (Some h) t st).

Definition watches (uid : jsstring) (s : AuthenticatedSocket) : bool :=
  negb (Socket.isBroadcaster s)
  && bool_decide (Socket.watchingStream s = Some uid).

Definition sendInitialStreamsList (socket : AuthenticatedSocket) : Action :=
  fun st =>
    let activeStreams := Prisma.findMany (lit "active") (table st) in
    let streamsWithViewers :=
      map (fun stream =>
             let socketsInRoom :=
               fetchSockets (stream_room (Prisma.uid stream)) st in
             {| sv_stream := stream;
                viewersCount :=
                  length (List.filter (watches (Prisma.uid stream)) socketsInRoom);
                streamerAvatar := streamerAvatarOf socketsInRoom |})
          activeStreams in
    emit (ToSocket (Socket.id socket)) "streams-list"
      (StreamsList streamsWithViewers (length streamsWithViewers) false) st.

Definition sendUserInfo (socket : AuthenticatedSocket) : Action :=
  emit (ToSocket (Socket.id socket)) "user-info" (UserInfo (viewerInfo socket None)).

Definition handleWatchLive (socket : AuthenticatedSocket) (stream_data : JsValue) : Action :=
  with_parsed stream_data socket (fun parsedData st =>
    let streamUid := field parsedData "streamUid" in
    match Prisma.findFirst streamUid (Prisma.has_status (lit "active")) (table st) with
    | Prisma.Ok (Some _) =>
        match template_room streamUid with
        | Some room =>
            (modify (socket_join (Socket.id socket) room) ;;;
             modify (update_socket (Socket.id socket)
                       (Socket.set_watching (as_string streamUid) true)) ;;;
             notifyStreamerAboutViewers streamUid Joined (viewerInfo socket None) ;;;
             scheduleBroadcastUpdate) st
        | None =>
            reply socket (ErrorReply None (lit "Error al unirse al stream")) st
        end
    | Prisma.Ok None =>
        reply socket (ErrorReply None (lit "El stream no está disponible")) st
    | Prisma.Throws =>
        reply socket (ErrorReply None (lit "Error al unirse al stream")) st
    end).

(** No [try] around this body: a throwing template literal ends the handler
    before anything has changed. *)
Definition handleStopWatching (socket : AuthenticatedSocket) (stream_data : JsValue) : Action :=
  with_parsed stream_data socket (fun parsedData =>
    let streamUid := field parsedData "streamUid" in
    match template_room streamUid with
    | Some room =>
        modify (socket_leave (Socket.id socket) room) ;;;
        modify (update_socket (Socket.id socket) (Socket.set_watching None false)) ;;;
        notifyStreamerAboutViewers streamUid Left (viewerInfo socket None) ;;;
        scheduleBroadcastUpdate
    | None => skip
    end).

Definition handleStartStreaming (socket : AuthenticatedSocket) (streamData : JsValue) : Action :=
  with_parsed streamData socket (fun parsedData st =>
    let streamUid := field parsedData "streamUid" in
    let failed := reply socket (ErrorReply None (lit "Error al iniciar stream")) in
    match Prisma.findFirst streamUid
            (Prisma.has_userId (Jwt.id (Socket.user socket))) (table st) with
    | Prisma.Ok (Some _) =>
        match Prisma.update streamUid (lit "active") (table st) with
        | Prisma.Ok updated =>
            (modify (with_table updated) ;;;
             modify (update_socket (Socket.id socket)
                       (Socket.set_broadcasting true (as_string streamUid))) ;;;
             match template_room streamUid with
             | Some room =>
                 modify (socket_join (Socket.id socket) room) ;;;
                 registerActiveStreamer (Socket.id socket) streamUid ;;;
                 scheduleBroadcastUpdate ;;;
                 emit (ToSocket (Socket.id socket)) "stream_started"
                   (StreamStarted streamUid (lit "true"))
             | None => failed
             end) st
        | Prisma.Throws => failed st
        end
    | Prisma.Ok None =>
        reply socket
          (ErrorReply None (lit "Stream no encontrado o no tienes permisos")) st
    | Prisma.Throws => failed st
    end).

Definition handleEndStreaming (socket : AuthenticatedSocket) (stream_data : JsValue) : Action :=
  with_parsed stream_data socket (fun parsedData st =>
    let streamUid := field parsedData "streamUid" in
    let failed := reply socket (ErrorReply None (lit "Error al finalizar stream")) in
    match Prisma.findFirst streamUid
            (Prisma.has_userId (Jwt.id (Socket.user socket))) (table st) with
    | Prisma.Ok _ =>
        (* the row found, or its absence, is not looked at *)
        match Prisma.update streamUid (lit "offline") (table st) with
        | Prisma.Ok updated =>
            (modify (with_table updated) ;;;
             modify (update_socket (Socket.id socket)
                       (Socket.set_broadcasting false None)) ;;;
             unregisterActiveStreamer streamUid ;;;
             emit ToAll "stream_ended"
               (StreamEnded streamUid
                  (lit "Stream finalizado por " ++ Jwt.displayName (Socket.user socket))
                  (lit "manual") (Some (lit "false"))) ;;;
             scheduleBroadcastUpdate) st
        | Prisma.Throws => failed st
        end
    | Prisma.Throws => failed st
    end).

(** [streamUid && isBroadcaster], [if (watchingStream)]: an absent property
    and the empty string are both falsy. *)
Definition truthy_uid (o : option jsstring) : bool :=
  match o with Some s => negb (eqb s []) | None => false end.

(** [socket] is the closed socket, with the properties it had when the
    connection dropped. *)
Definition handleDisconnect (socket : AuthenticatedSocket) : Action :=
  (if truthy_uid (Socket.streamUid socket) && Socket.isBroadcaster socket
   then unregisterActiveStreamer (JString (default [] (Socket.streamUid socket)))
   else skip) ;;;
  (if truthy_uid (Socket.watchingStream socket)
   then
     notifyStreamerAboutViewers
       (JString (default [] (Socket.watchingStream socket))) Left
       (viewerInfo socket (Some (lit "disconnected"))) ;;;
     scheduleBroadcastUpdate
   else skip).

Definition send_message_error (message : string) : Payload :=
  ErrorReply (Some (lit "send-message")) (lit message).

(** [!message || typeof message !== 'string' || message.trim() === ""] *)
Definition invalid_message (message : JsValue) : bool :=
  negb (truthy message) || negb (is_string message)
  || eqb (trim (default [] (as_string message))) [].

Definition handleSendMessage (socket : AuthenticatedSocket) (data : JsValue) : Action :=
  with_parsed data socket (fun parsedData =>
    let streamUid := field parsedData "streamUid" in
    let message := field parsedData "message" in
    if negb (truthy streamUid) || negb (is_string streamUid) then
      reply socket (send_message_error "ID de stream inválido")
    else if invalid_message message then
      reply socket (send_message_error "El mensaje no puede estar vacío")
    else
      let isBroadcaster := Socket.isBroadcaster socket in
      let u := Socket.user socket in
      let messageData :=
        NewMessage streamUid
          {| pu_id := Jwt.id u;
             pu_displayName :=
               if isBroadcaster
               then Jwt.displayName u ++ lit " (Anfitrión)"
               else Jwt.displayName u;
             pu_metroUsername := Jwt.metroUsername u;
             pu_role := Some (Jwt.role u);
             pu_avatar := getUserAvatar u;
             pu_socketId := None; pu_reason := None |}
          (trim (default [] (as_string message))) in
      match template_room streamUid with
      | Some room => emit (ToRoom room) "new-message" messageData
      | None => reply socket (send_message_error "Error al enviar el mensaje")
      end).

(** [data] is used as it arrives; destructuring [null] or [undefined] throws
    and the [catch] only logs. *)
Definition handleTyping (socket : AuthenticatedSocket) (data : JsValue) : Action :=
  match get data (lit "streamUid"), get data (lit "isTyping") with
  | Some streamUid, Some isTyping =>
      match template_room streamUid with
      | Some room =>
          let u := Socket.user socket in
          emit (ToRoomExcept room (Socket.id socket)) "user-typing"
            (UserTyping
               {| pu_id := Jwt.id u; pu_displayName := Jwt.displayName u;
                  pu_metroUsername := Jwt.metroUsername u; pu_role := None;
                  pu_avatar := getUserAvatar u;
                  pu_socketId := None; pu_reason := None |}
               isTyping)
      | None => skip
      end
  | _, _ => skip
  end.

Definition cleanupOrphanedStream (streamUid socketId : jsstring) : Action :=
  modify (fun st =>
    with_activeStreamers (registry_delete streamUid (activeStreamers st)) st) ;;;
  (fun st =>
     match Prisma.update (JString streamUid) (lit "offline") (table st) with
     | Prisma.Ok updated =>
         (modify (with_table updated) ;;;
          emit ToAll "stream_ended"
            (StreamEnded (JString streamUid)
               (lit "Stream finalizado: conexión TCP perdida")
               (lit "tcp_disconnection") None) ;;;
          scheduleBroadcastUpdate) st
     | Prisma.Throws => (st, [])
     end).

(** [!socket || !socket.connected] *)
Definition socket_lost (socketId : jsstring) (st : State) : bool :=
  match sockets st !! socketId with
  | Some socket => negb (Socket.connected socket)
  | None => true
  end.

(** The body of the loop over [activeStreamers.entries()]. *)
Definition visitStreamer (entry : jsstring * StreamerInfo) : Action :=
  fun st =>
    if socket_lost (socketId (snd entry)) st
    then cleanupOrphanedStream (fst entry) (socketId (snd entry)) st
    else (st, []).

Definition sweep (entries : list (jsstring * StreamerInfo)) : Action :=
  foldr (fun entry rest => visitStreamer entry ;;; rest) skip entries.

(** The only entry a visit deletes is the visited one, so the loop visits
    the entries present when it starts, in order. *)
Definition checkDisconnectedStreamers : Action :=
  fun st => sweep (activeStreamers st) st.

Definition is_metro_streamer (user : JwtPayload) : bool :=
  eqb (Jwt.role user) (lit "metro_streamer").

(** The listeners [setupRoleBasedEvents] installs on a socket; an event with
    no listener is dropped. *)
Definition dispatch (socket : AuthenticatedSocket) (name : string) (data : JsValue) : Action :=
  if String.eqb name "watch_live" then handleWatchLive socket data
  else if String.eqb name "stop_watching" then handleStopWatching socket data
  else if String.eqb name "get_streams" then sendInitialStreamsList socket
  else if String.eqb name "send-message" then handleSendMessage socket data
  else if String.eqb name "typing" then handleTyping socket data
  else if is_metro_streamer (Socket.user socket) then
    if String.eqb name "start_streaming" then handleStartStreaming socket data
    else if String.eqb name "end_streaming" then handleEndStreaming socket data
    else skip
  else skip.

(** The [connection] listener, for a socket that passed the handshake. *)
Definition onConnection (id : jsstring) (user : JwtPayload) : Action :=
  let socket := Socket.fresh id user in
  modify (fun st => with_sockets (<[id := socket]> (sockets st)) st) ;;;
  modify (socket_join id id) ;;;
  sendUserInfo socket ;;;
  sendInitialStreamsList socket.

(** A due timeout leaves the timer list and runs its callback; the handle
    kept in [broadcastTimeout] is not reset. *)
Definition fire (h : N) : Action :=
  modify (fun st => with_timeout (broadcastTimeout st) (clearTimeout h (timers st)) st) ;;;
  broadcastUpdatedStreamsList.

Definition set_clock (t : N) (st : State) : State :=
  with_timeout (broadcastTimeout st)
    {| now := t; armed := armed (timers st); next_handle := next_handle (timers st) |} st.

Definition elapse (ms : N) : Action :=
  fun st =>
    let deadline := now (timers st) + ms in
    let due := List.filter (fun e => snd e <=? deadline) (armed (timers st)) in
    (foldr (fun e rest => fire (fst e) ;;; rest) skip due ;;;
     modify (set_clock deadline)) st.

(** ** Events of the server *)

Inductive Event :=
| Connection (id : jsstring) (user : JwtPayload)  (* a handshake went through *)
| Message (id : jsstring) (name : string) (data : JsValue)
                                                  (* the client emitted [name] *)
| Disconnect (id : jsstring)                      (* the transport closed *)
| Elapse (ms : N)                                 (* time passes, due timers run *)
| Reconcile.                                      (* checkDisconnectedStreamers runs *)

(** One event; [None] when the transport cannot deliver it (a connection
    under an id in use, traffic from a socket that is not open). *)
Definition step (st : State) (ev : Event) : option (State * list Emission) :=
  match ev with
  | Connection id user =>
      match sockets st !! id with
      | None => Some (onConnection id user st)
      | Some _ => None
      end
  | Message id name data =>
      match sockets st !! id with
      | Some socket => Some (dispatch socket name data st)
      | None => None
      end
  | Disconnect id =>
      match sockets st !! id with
      | Some socket => Some (handleDisconnect socket (socket_close id st))
      | None => None
      end
  | Elapse ms => Some (elapse ms st)
  | Reconcile => Some (checkDisconnectedStreamers st)
  end.

Fixpoint run (st : State) (evs : list Event) : option (State * list Emission) :=
  match evs with
  | [] => Some (st, [])
  | ev :: rest =>
      match step st ev with
      | Some (st1, o1) =>
          match run st1 rest with
          | Some (st2, o2) => Some (st2, o1 ++ o2)
          | None => None
          end
      | None => None
      end
  end.

Inductive reachable : State -> Prop :=
| reachable_initial streams : reachable (initial streams)
| reachable_step st ev st' out :
    reachable st -> step st ev = Some (st', out) -> reachable st'.

End SocketService.

(** ** Notions the properties are stated with *)

Definition is_event (name : string) (e : Emission) : bool := String.eqb (event e) name.

(** The messages of one kind among a handler's output. *)
Definition emitted (name : string) (out : list Emission) : list Emission :=
  List.filter (is_event name) out.

(** The [streams-list] broadcasts to every client among [out]. *)
Definition broadcasts (out : list Emission) : list Emission :=
  List.filter
    (fun e => is_event "streams-list" e
              && match target e with ToAll => true | _ => false end) out.

(** The viewers of a stream as the data model defines them: the connections
    in [room(uid)] with [isAutoViewer] set and [isBroadcaster] not set. *)
Definition live_viewer (st : State) (id : jsstring) : bool :=
  match sockets st !! id with
  | Some s => Socket.isAutoViewer s && negb (Socket.isBroadcaster s)
  | None => false
  end.

Definition viewers_in_room (uid : jsstring) (st : State) : nat :=
  length (List.filter (live_viewer st) (members (stream_room uid) st)).

(** The count a [streams-list] payload reports for a stream. *)
Definition reported_count (uid : jsstring) (p : Payload) : option nat :=
  match p with
  | StreamsList streams _ _ =>
      viewersCount <$> List.find (fun v => eqb (Prisma.uid (sv_stream v)) uid) streams
  | _ => None
  end.

Definition status_of (uid : jsstring) (st : State) : option (option jsstring) :=
  Prisma.status <$> List.find (Prisma.has_uid uid) (table st).

Definition owner_of (uid : jsstring) (st : State) : option jsstring :=
  Prisma.userId <$> List.find (Prisma.has_uid uid) (table st).

(** A connection holds broadcaster status for a stream. *)
Definition broadcasts_stream (uid : jsstring) (s : AuthenticatedSocket) : Prop :=
  Socket.isBroadcaster s = true /\ Socket.streamUid s = Some uid.

(** Every socket is filed under its own id, and a socket whose role is not
    [metro_streamer] is never marked as broadcaster. *)
Definition sockets_ok (st : State) : Prop :=
  forall id s, sockets st !! id = Some s ->
    Socket.id s = id /\
    (is_metro_streamer (Socket.user s) = false -> Socket.isBroadcaster s = false).

(** The only timeout that can be armed is the one [broadcastTimeout] holds,
    and handles are not reused. *)
Definition timers_ok (st : State) : Prop :=
  Forall (fun e => broadcastTimeout st = Some (fst e)) (armed (timers st))
  /\ match broadcastTimeout st with
     | Some h => h < next_handle (timers st)
     | None => True
     end.

(** [n] calls of the scheduler, [gaps] giving the time between one call and
    the next. *)
Fixpoint burst (gaps : list N) : Action :=
  scheduleBroadcastUpdate ;;;
  match gaps with
  | [] => skip
  | g :: rest => elapse g ;;; burst rest
  end.

(** The payload [{ streamUid }] as a client object. *)
Definition stream_data (uid : jsstring) : JsValue :=
  JObject [(lit "streamUid", JString uid)].

Definition chat_data (uid message : jsstring) : JsValue :=
  JObject [(lit "streamUid", JString uid); (lit "message", JString message)].

(** A component of the state has a given value. *)
Definition has {A} (proj : State -> A) (x : A) (st : State) : Prop := proj st = x.

(** [socket] is the record filed under its id, as far as the identity goes. *)
Definition same_user (socket : AuthenticatedSocket) (st : State) : Prop :=
  sockets_ok st /\
  forall s, sockets st !! Socket.id socket = Some s -> Socket.user s = Socket.user socket.

(** The output carries the confirmation that [uid] was started. *)
Definition confirms (uid : jsstring) (out : list Emission) : Prop :=
  exists e status,
    e ∈ out /\ event e = "stream_started"%string
    /\ payload e = StreamStarted (JString uid) status.

(** The state a successful [start_streaming] leaves. *)
Definition started (socket : AuthenticatedSocket) (uid : jsstring)
    (updated : list Stream) (st : State) : State :=
  fst (scheduleBroadcastUpdate
         (with_activeStreamers
            (registry_set uid {| socketId := Socket.id socket; tracked := uid |}
               (activeStreamers st))
            (socket_join (Socket.id socket) (stream_room uid)
               (update_socket (Socket.id socket)
                  (Socket.set_broadcasting true (Some uid))
                  (with_table updated st))))).

(** The registry has no entry for the stream. *)
Definition untracked (uid : jsstring) (st : State) : Prop :=
  registry_get uid (activeStreamers st) = None.

(** Every record of the stream is offline. *)
Definition offline (uid : jsstring) (st : State) : Prop :=
  forall r, r ∈ table st -> Prisma.uid r = uid ->
            Prisma.status r = Some (lit "offline").

(** The stream id names a record of the table. *)
Definition recorded (uid : jsstring) (st : State) : Prop :=
  existsb (Prisma.has_uid uid) (table st) = true.

(** The notification of a stream lost with its connection. *)
Definition tcp_ended (uid : jsstring) : Emission :=
  {| target := ToAll; event := "stream_ended";
     payload :=
       StreamEnded (JString uid) (lit "Stream finalizado: conexión TCP perdida")
         (lit "tcp_disconnection") None |}.

(** The state [stop_watching] leaves before it notifies and reschedules. *)
Definition stopped (id uid : jsstring) (st : State) : State :=
  update_socket id (Socket.set_watching None false)
    (socket_leave id (stream_room uid) st).

(** An action keeps a state property. *)
Definition preserves (P : State -> Prop) (a : Action) : Prop :=
  forall st, P st -> P (fst (a st)).

(** The registry holds at most one entry per stream. *)
Definition registry_ok (st : State) : Prop :=
  NoDup (map fst (activeStreamers st)).

(** *** Concrete scenarios *)

(** A runtime whose [JSON.parse] rejects every text.  The scenarios below
    send structured payloads, which [parseSocketData] hands back untouched. *)
Definition JSON_parse_rejecting : jsstring -> option JsValue := fun _ => None.

Module Scenario.

Definition alice : JwtPayload :=
  Jwt.mk (lit "u-alice") (lit "metro_streamer") (Some (lit "alice")) (lit "Alice") None.
Definition bob : JwtPayload :=
  Jwt.mk (lit "u-bob") (lit "metro_streamer") (Some (lit "bob")) (lit "Bob") None.
Definition vera : JwtPayload :=
  Jwt.mk (lit "u-vera") (lit "viewer") (Some (lit "vera")) (lit "Vera") None.

Definition S1 : jsstring := lit "live-input-alice".
Definition S2 : jsstring := lit "live-input-bob".
Definition S3 : jsstring := lit "live-input-alice-2".

Definition streams : list Stream :=
  [Prisma.mk S1 (lit "Alice live") (lit "u-alice") (Some (lit "offline")) None None None;
   Prisma.mk S2 (lit "Bob live") (lit "u-bob") (Some (lit "offline")) None None None;
   Prisma.mk S3 (lit "Alice again") (lit "u-alice") (Some (lit "offline")) None None None].

Definition a1 : jsstring := lit "socket-a1".
Definition a2 : jsstring := lit "socket-a2".
Definition b1 : jsstring := lit "socket-b1".
Definition v1 : jsstring := lit "socket-v1".
Definition v2 : jsstring := lit "socket-v2".

Definition after (evs : list Event) : State :=
  match run JSON_parse_rejecting (initial streams) evs with
  | Some (st, _) => st
  | None => initial streams
  end.

Definition output (st : State) (ev : Event) : list Emission :=
  match step JSON_parse_rejecting st ev with
  | Some (_, out) => out
  | None => []
  end.

(** Alice is live on [S1]; Bob, another streamer, is connected. *)
Definition alice_live : State :=
  after [Connection a1 alice; Connection b1 bob;
         Message a1 "start_streaming" (stream_data S1)].

(** Alice and Bob are live; Vera watched [S1] and then [S2]. *)
Definition vera_switched : State :=
  after [Connection a1 alice; Connection b1 bob;
         Message a1 "start_streaming" (stream_data S1);
         Message b1 "start_streaming" (stream_data S2);
         Connection v1 vera;
         Message v1 "watch_live" (stream_data S1);
         Message v1 "watch_live" (stream_data S2)].

(** Alice is live on [S1] and Vera watches it. *)
Definition vera_watching : State :=
  after [Connection a1 alice;
         Message a1 "start_streaming" (stream_data S1);
         Connection v1 vera;
         Message v1 "watch_live" (stream_data S1)].

(** Alice went live on [S1] from one connection and then from another. *)
Definition alice_twice : State :=
  after [Connection a1 alice; Connection a2 alice;
         Message a1 "start_streaming" (stream_data S1);
         Message a2 "start_streaming" (stream_data S1)].

(** Alice and Bob are live, and Alice, still live, watches Bob's stream. *)
Definition alice_live_then_watching : State :=
  after [Connection a1 alice; Connection b1 bob;
         Message a1 "start_streaming" (stream_data S1);
         Message b1 "start_streaming" (stream_data S2);
         Message a1 "watch_live" (stream_data S2)].

(** Alice went live on [S1] and then on [S3] with the same socket, and the
    socket dropped: the registry still tracks it for [S1]. *)
Definition alice_dropped : State :=
  after [Connection a1 alice;
         Message a1 "start_streaming" (stream_data S1);
         Message a1 "start_streaming" (stream_data S3);
         Disconnect a1].

(** The socket records of the scenarios. *)
Definition bob_idle : AuthenticatedSocket := Socket.fresh b1 bob.
Definition alice_streaming : AuthenticatedSocket :=
  Socket.mk a1 alice true true (Some S1) None false.
Definition vera_viewing : AuthenticatedSocket :=
  Socket.mk v1 vera true false None (Some S1) true.

Definition started_notice (id uid : jsstring) : Emission :=
  {| target := ToSocket id; event := "stream_started";
     payload := StreamStarted (JString uid) (lit "true") |}.

(** Alice has two connections open, and then is live from the first. *)
Definition alice_connected_twice : State :=
  after [Connection a1 alice; Connection a2 alice].
Definition alice_once : State :=
  after [Connection a1 alice; Connection a2 alice;
         Message a1 "start_streaming" (stream_data S1)].

End Scenario.

(** ** Further notions *)

(** Every message an action emits satisfies [P]. *)
Definition emits (P : Emission -> Prop) (a : Action) : Prop :=
  forall st, Forall P (snd (a st)).

(** An error, if [e] is one, is addressed to the socket [id] alone. *)
Definition error_to (id : jsstring) (e : Emission) : Prop :=
  event e = "error"%string -> target e = ToSocket id.

(** [e] is a message of one of the kinds [names]. *)
Definition named (names : list string) (e : Emission) : Prop := In (event e) names.



(** A row with its status left out. *)
Definition blank (r : Stream) : Stream :=
  Prisma.mk (Prisma.uid r) (Prisma.title r) (Prisma.userId r) None
    (Prisma.webRTCPlaybackUrl r) (Prisma.displayName r) (Prisma.metroUsername r).

(** [r'] is the row [r] with the status it had, or set to [active] or
    [offline]. *)
Definition row_evolves (r r' : Stream) : Prop :=
  blank r' = blank r
  /\ (Prisma.status r' = Prisma.status r
      \/ Prisma.status r' = Some (lit "active")
      \/ Prisma.status r' = Some (lit "offline")).

Definition table_evolves (rows : list Stream) (st : State) : Prop :=
  Forall2 row_evolves rows (table st).

(** Every registry entry is filed under the stream id it carries, and that
    id is one of the ids of [rows]. *)
Definition registry_within (rows : list Stream) (st : State) : Prop :=
  forall k info, (k, info) ∈ activeStreamers st ->
    tracked info = k /\ k ∈ map Prisma.uid rows.

Definition streams_ok (rows : list Stream) (st : State) : Prop :=
  table_evolves rows st /\ registry_within rows st.

(** *** Replaying the scenarios *)

(** What a sequence of events emits from the scenarios' initial state, and
    the state one more event leads to. *)
Definition outputs (evs : list Event) : list Emission :=
  match run JSON_parse_rejecting (initial Scenario.streams) evs with
  | Some (_, out) => out
  | None => []
  end.

Definition next (st : State) (ev : Event) : State :=
  match step JSON_parse_rejecting st ev with
  | Some (st', _) => st'
  | None => st
  end.

Definition permission_error (id : jsstring) : Emission :=
  {| target := ToSocket id; event := "error";
     payload := ErrorReply None (lit "Stream no encontrado o no tienes permisos") |}.


(** Alice went live and ended her stream; Bob is live. *)
Definition alice_ended : list Event :=
  [Connection Scenario.a1 Scenario.alice; Connection Scenario.b1 Scenario.bob;
   Message Scenario.a1 "start_streaming" (stream_data Scenario.S1);
   Message Scenario.b1 "start_streaming" (stream_data Scenario.S2);
   Message Scenario.a1 "end_streaming" (stream_data Scenario.S1)].

(** A room lists no connection twice, and only open ones. *)
Definition rooms_ok (st : State) : Prop :=
  forall room ids, rooms st !! room = Some ids ->
    NoDup ids /\ forall id, id ∈ ids -> is_Some (sockets st !! id).

(** The invariant of a handler run for [socket]. *)
Definition rooms_ok_for (socket : AuthenticatedSocket) (st : State) : Prop :=
  is_Some (sockets st !! Socket.id socket) /\ rooms_ok st.

Definition typing_data (uid : jsstring) (isTyping : bool) : JsValue :=
  JObject [(lit "streamUid", JString uid); (lit "isTyping", JBool isTyping)].

(** The socket an entry of the registry names is gone or not connected. *)
Definition lost_entry (st : State) (e : jsstring * StreamerInfo) : bool :=
  socket_lost (socketId (snd e)) st.

(** [e] is filed under the key of an entry of [entries] whose socket is lost. *)
Definition swept (st : State) (entries : list (jsstring * StreamerInfo))
    (e : jsstring * StreamerInfo) : bool :=
  existsb (fun x => eqb (fst e) (fst x) && lost_entry st x) entries.

(** At most one timeout is armed, and it is the one [broadcastTimeout] holds. *)
Definition one_timer (st : State) : Prop :=
  timers_ok st /\ (length (armed (timers st)) <= 1)%nat.

(** A [streams-list] message that does not go to everyone. *)
Definition not_broadcast (e : Emission) : Prop :=
  event e = "streams-list"%string -> target e <> ToAll.

(** [destroy()].  [heartbeatInterval] is never assigned
    ([startHeartbeatMonitoring] only logs), so the branch that clears it
    does not run. *)
Definition destroy : Action :=
  modify (fun st =>
    match broadcastTimeout st with
    | Some h => with_timeout None (clearTimeout h (timers st)) st
    | None => st
    end) ;;;
  modify (with_activeStreamers []).

(** A [streams-list] message lists the active records of [rows], in their
    order, and counts them. *)
Definition lists_active (rows : list Stream) (e : Emission) : Prop :=
  event e = "streams-list"%string ->
  exists views live,
    payload e = StreamsList views (length views) live
    /\ map sv_stream views = Prisma.findMany (lit "active") rows.

(** The reply to [watch_live] for a stream that is not being broadcast. *)
Definition unavailable (id : jsstring) : Emission :=
  {| target := ToSocket id; event := "error";
     payload := ErrorReply None (lit "El stream no está disponible") |}.

(** A colon of [s] comes directly after a word character; [w] tells whether
    the character before [s] is one. *)
Fixpoint has_bare_key (w : bool) (s : jsstring) : bool :=
  match s with
  | [] => false
  | c :: r =>
      if is_word c then has_bare_key true r
      else ((c =? 58) && w) || has_bare_key false r
  end.

(** A [viewer_update] message, read against the state it is sent in: it
    goes to the first broadcaster of the stream's room and reports the
    viewers of that room. *)
Definition viewer_report (st : State) (e : Emission) : Prop :=
  event e = "viewer_update"%string ->
  exists streamUid action viewer viewers room streamer,
    payload e = ViewerUpdate streamUid action viewer viewers (length viewers)
    /\ template_room streamUid = Some room
    /\ List.find Socket.isBroadcaster (fetchSockets room st) = Some streamer
    /\ target e = ToSocket (Socket.id streamer)
    /\ length viewers = length (List.filter (live_viewer st) (members room st)).

(** An action reports viewers rightly, sends nothing, keeps the connections
    and the rooms. *)
Definition reports (a : Action) : Prop :=
  forall st, Forall (viewer_report (fst (a st))) (snd (a st)).

Definition silent (a : Action) : Prop := forall st, snd (a st) = [].

Definition keeps_presence (a : Action) : Prop :=
  forall st, sockets (fst (a st)) = sockets st /\ rooms (fst (a st)) = rooms st.

(** The notice of a stream ended by [end_streaming]. *)
Definition ended_notice (socket : AuthenticatedSocket) (uid : jsstring) : Emission :=
  {| target := ToAll; event := "stream_ended";
     payload :=
       StreamEnded (JString uid)
         (lit "Stream finalizado por " ++ Jwt.displayName (Socket.user socket))
         (lit "manual") (Some (lit "false")) |}.

Definition end_error (id : jsstring) : Emission :=
  {| target := ToSocket id; event := "error";
     payload := ErrorReply None (lit "Error al finalizar stream") |}.

(** * Properties *)

(** ** JavaScript strings *)

Lemma eqb_true (a b : jsstring) : eqb a b = true <-> a = b.
Proof. unfold eqb. apply bool_decide_eq_true. Qed.

Lemma eqb_false (a b : jsstring) : eqb a b = false <-> a <> b.
Proof. unfold eqb. apply bool_decide_eq_false. Qed.

Lemma eqb_refl (a : jsstring) : eqb a a = true.
Proof. by apply eqb_true. Qed.

Lemma trimStart_whitespace (s : jsstring) :
  trimStart s = [] <-> Forall (fun c => is_whitespace c = true) s.
Proof.
  induction s as [|c r IH]; simpl.
  - split; auto.
  - destruct (is_whitespace c) eqn:Hc.
    + rewrite IH. split.
      * intros H. by constructor.
      * intros H. by inversion H.
    + split; [discriminate|].
      intros H. inversion H. congruence.
Qed.

(** A string trims to the empty string exactly when it holds nothing but
    whitespace. *)
Lemma trim_empty_iff (s : jsstring) :
  trim s = [] <-> Forall (fun c => is_whitespace c = true) s.
Proof.
  split.
  - intros H. unfold trim, trimEnd in H.
    assert (Hr : trimStart (rev (trimStart s)) = []).
    { rewrite <- (rev_involutive (trimStart _)). by rewrite H. }
    apply trimStart_whitespace, Forall_rev in Hr.
    rewrite rev_involutive in Hr.
    clear H. induction s as [|c r IH]; [constructor|].
    simpl in Hr. destruct (is_whitespace c) eqn:Hc.
    + constructor; auto.
    + inversion Hr. congruence.
  - intros H. unfold trim. apply trimStart_whitespace in H. by rewrite H.
Qed.

(** ** Chat relay *)

Section ChatRelay.

Variable JSON_parse : jsstring -> option JsValue.

(** A payload that survives the prologue was parsed without complaint. *)
Lemma parse_truthy_silent data socket parsed out :
  parseSocketData JSON_parse data socket = (parsed, out) ->
  truthy parsed = true -> out = [].
Proof.
  unfold parseSocketData. intros H Ht.
  destruct data; try (by inversion H).
  destruct (JSON_parse s); [by inversion H|].
  destruct (JSON_parse (quote_bare_keys s)); inversion H; subst; done.
Qed.

Lemma invalid_message_whitespace (m : jsstring) :
  Forall (fun c => is_whitespace c = true) m -> invalid_message (JString m) = true.
Proof.
  intros H. apply trim_empty_iff in H. unfold invalid_message. simpl.
  rewrite H. by rewrite !orb_true_r.
Qed.

Lemma valid_message (m : jsstring) :
  trim m <> [] -> invalid_message (JString m) = false.
Proof.
  intros H. unfold invalid_message. simpl.
  assert (m <> []) as Hm by (intros ->; by apply H).
  apply eqb_false in Hm, H. by rewrite Hm, H.
Qed.

(** C9, as the code has it: a send-message whose payload resolves to a truthy
    value is answered with an error naming [send-message], and nothing else,
    when its message is whitespace-only (or empty) or its streamUid is not a
    string; a text payload that cannot be parsed is answered by the parser's
    own error, which names no event; a valid payload is relayed with the
    trimmed message. *)
Theorem send_message_validation (st : State) (socket : AuthenticatedSocket)
    (data parsed : JsValue) (out : list Emission) :
  parseSocketData JSON_parse data socket = (parsed, out) ->
  (truthy parsed = true ->
   ((exists m, field parsed "message" = JString m
               /\ Forall (fun c => is_whitespace c = true) m)
    \/ is_string (field parsed "streamUid") = false) ->
   exists text,
     handleSendMessage JSON_parse socket data st
     = (st, [{| target := ToSocket (Socket.id socket); event := "error";
                payload := ErrorReply (Some (lit "send-message")) text |}]))
  /\ (forall text, data = JString text -> JSON_parse text = None ->
      JSON_parse (quote_bare_keys text) = None ->
      handleSendMessage JSON_parse socket data st
      = (st, [{| target := ToSocket (Socket.id socket); event := "error";
                 payload := ErrorReply None (lit "Formato de datos inválido") |}]))
  /\ (forall uid m,
      truthy parsed = true ->
      field parsed "streamUid" = JString uid -> uid <> [] ->
      field parsed "message" = JString m -> trim m <> [] ->
      exists user,
        handleSendMessage JSON_parse socket data st
        = (st, [{| target := ToRoom (stream_room uid); event := "new-message";
                   payload := NewMessage (JString uid) user (trim m) |}])).
Proof.
  intros Hparse. repeat split.
  - intros Ht Hbad.
    pose proof (parse_truthy_silent _ _ _ _ Hparse Ht) as ->.
    unfold handleSendMessage, with_parsed. rewrite Hparse, Ht.
    destruct (negb (truthy (field parsed "streamUid"))
              || negb (is_string (field parsed "streamUid"))) eqn:Huid.
    + eexists. reflexivity.
    + destruct Hbad as [(m & Hm & Hws) | Hs].
      * rewrite Hm, (invalid_message_whitespace m Hws). eexists. reflexivity.
      * rewrite Hs in Huid. simpl in Huid. by rewrite orb_true_r in Huid.
  - intros text -> H1 H2.
    unfold handleSendMessage, with_parsed, parseSocketData.
    by rewrite H1, H2.
  - intros uid m Ht Huid Hne Hm Htrim.
    pose proof (parse_truthy_silent _ _ _ _ Hparse Ht) as ->.
    unfold handleSendMessage, with_parsed. rewrite Hparse, Ht, Huid, Hm.
    simpl. apply eqb_false in Hne. rewrite Hne. simpl.
    rewrite (valid_message m Htrim). unfold template_room. simpl.
    eexists. reflexivity.
Qed.

(** C10: a relayed message names its sender by [displayName], with the
    suffix [" (Anfitrión)"] exactly when the sending socket is marked as
    broadcaster, and goes to every open connection of the room, the sender
    included when it is in the room. *)
Theorem new_message_envelope (st : State) (id : jsstring)
    (socket : AuthenticatedSocket) (data parsed : JsValue)
    (out : list Emission) (uid m : jsstring) :
  sockets st !! id = Some socket ->
  parseSocketData JSON_parse data socket = (parsed, out) ->
  truthy parsed = true ->
  field parsed "streamUid" = JString uid -> uid <> [] ->
  field parsed "message" = JString m -> trim m <> [] ->
  exists user,
    step JSON_parse st (Message id "send-message" data)
    = Some (st, [{| target := ToRoom (stream_room uid); event := "new-message";
                    payload := NewMessage (JString uid) user (trim m) |}])
    /\ pu_displayName user
       = (if Socket.isBroadcaster socket
          then Jwt.displayName (Socket.user socket) ++ lit " (Anfitrión)"
          else Jwt.displayName (Socket.user socket))
    /\ (forall c, c ∈ members (stream_room uid) st -> is_open st c = true ->
        c ∈ recipients (ToRoom (stream_room uid)) st)
    /\ (id ∈ members (stream_room uid) st ->
        id ∈ recipients (ToRoom (stream_room uid)) st).
Proof.
  intros Hsock Hparse Ht Huid Hne Hm Htrim.
  pose proof (parse_truthy_silent _ _ _ _ Hparse Ht) as ->.
  assert (Hin : forall c, c ∈ members (stream_room uid) st -> is_open st c = true ->
                c ∈ recipients (ToRoom (stream_room uid)) st).
  { intros c Hc Ho. simpl. apply list_elem_of_In, filter_In.
    split; [by apply list_elem_of_In|done]. }
  eexists. split; [|split; [|split]].
  - simpl. rewrite Hsock. unfold dispatch. simpl.
    unfold handleSendMessage, with_parsed. rewrite Hparse, Ht, Huid, Hm.
    simpl. apply eqb_false in Hne. rewrite Hne. simpl.
    rewrite (valid_message m Htrim). unfold template_room. simpl.
    reflexivity.
  - reflexivity.
  - exact Hin.
  - intros Hc. apply Hin; [done|].
    unfold is_open. apply bool_decide_eq_true. by rewrite Hsock.
Qed.

End ChatRelay.

(** ** The handlers on concrete scenarios *)

Ltac by_evaluation :=
  vm_compute; repeat split; try reflexivity; try discriminate;
  try (let H := fresh in intros H; discriminate H).

(** C1: [end_streaming] does not check the owner.  Alice is live on her
    stream [S1]; Bob, a streamer who does not own [S1], sends
    [end_streaming] for it: he gets no error, [S1] goes offline, its registry
    entry is dropped and [stream_ended] goes out to every client. *)
Theorem end_streaming_ignores_owner :
  let st := Scenario.alice_live in
  owner_of Scenario.S1 st = Some (Jwt.id Scenario.alice)
  /\ Jwt.id Scenario.bob <> Jwt.id Scenario.alice
  /\ status_of Scenario.S1 st = Some (Some (lit "active"))
  /\ is_Some (registry_get Scenario.S1 (activeStreamers st))
  /\ match step JSON_parse_rejecting st
             (Message Scenario.b1 "end_streaming" (stream_data Scenario.S1)) with
     | Some (st', out) =>
         emitted "error" out = []
         /\ status_of Scenario.S1 st' = Some (Some (lit "offline"))
         /\ registry_get Scenario.S1 (activeStreamers st') = None
         /\ map target (emitted "stream_ended" out) = [ToAll]
     | None => False
     end.
Proof.
  cbv zeta. split; [|split; [|split; [|split]]]; try by_evaluation.
  vm_compute. eauto.
Qed.

(** C2 fails for a role that is not broadcaster-capable: no listener is
    installed for its [start_streaming], so the event gets no reply at all. *)
Lemma start_streaming_without_role_is_dropped :
  is_metro_streamer Scenario.vera = false
  /\ step JSON_parse_rejecting Scenario.vera_watching
       (Message Scenario.v1 "start_streaming" (stream_data Scenario.S1))
     = Some (Scenario.vera_watching, []).
Proof. by_evaluation. Qed.

(** C3: the snapshot sent on connection counts by [watchingStream], not by
    [isAutoViewer].  Vera watched [S1] and then [S2] without leaving [S1]:
    room [S1] holds one viewer, the debounced broadcast reports 1 for [S1],
    and the snapshot a new connection receives in the same state reports 0. *)
Theorem initial_snapshot_count_differs :
  let st := Scenario.vera_switched in
  let counts st' out :=
    (viewers_in_room Scenario.S1 st',
     map (fun e => (target e, reported_count Scenario.S1 (payload e)))
         (emitted "streams-list" out)) in
  viewers_in_room Scenario.S1 st = 1%nat
  /\ match step JSON_parse_rejecting st (Connection Scenario.v2 Scenario.vera) with
     | Some (st', out) =>
         counts st' out = (1%nat, [(ToSocket Scenario.v2, Some 0%nat)])
     | None => False
     end
  /\ match step JSON_parse_rejecting st (Elapse 100) with
     | Some (st', out) => counts st' out = (1%nat, [(ToAll, Some 1%nat)])
     | None => False
     end.
Proof. by_evaluation. Qed.

(** C4 fails: a streamer that is live and then watches another stream has
    both flags set. *)
Lemma broadcaster_can_also_be_viewer :
  match sockets Scenario.alice_live_then_watching !! Scenario.a1 with
  | Some s => Socket.isBroadcaster s = true /\ Socket.isAutoViewer s = true
  | None => False
  end.
Proof. by_evaluation. Qed.

(** C5 fails: after the owner has started the same stream from two
    connections, both are marked as its broadcaster. *)
Lemma two_broadcasters_for_one_stream :
  Scenario.a1 <> Scenario.a2
  /\ match sockets Scenario.alice_twice !! Scenario.a1,
           sockets Scenario.alice_twice !! Scenario.a2 with
     | Some s1, Some s2 =>
         broadcasts_stream Scenario.S1 s1 /\ broadcasts_stream Scenario.S1 s2
     | _, _ => False
     end.
Proof. by_evaluation. Qed.


(** C9 fails: the streamUid of these payloads resolves to no string, yet a
    [send-message] with no payload, or with [null], is dropped in silence,
    and one whose payload is the text ["{"] (which [JSON.parse] rejects, also
    after the bare keys are quoted) is answered by the parser's error, which
    names no event. *)
Lemma send_message_without_event_name :
  step JSON_parse_rejecting Scenario.vera_watching
    (Message Scenario.v1 "send-message" JNull)
  = Some (Scenario.vera_watching, [])
  /\ step JSON_parse_rejecting Scenario.vera_watching
       (Message Scenario.v1 "send-message" JUndefined)
     = Some (Scenario.vera_watching, [])
  /\ quote_bare_keys (lit "{") = lit "{"
  /\ step JSON_parse_rejecting Scenario.vera_watching
       (Message Scenario.v1 "send-message" (JString (lit "{")))
     = Some (Scenario.vera_watching,
             [{| target := ToSocket Scenario.v1; event := "error";
                 payload := ErrorReply None (lit "Formato de datos inválido") |}]).
Proof. by_evaluation. Qed.

(** ** Running actions *)

Lemma seq_run (a b : Action) (st : State) :
  (a ;;; b) st = (fst (b (fst (a st))), snd (a st) ++ snd (b (fst (a st)))).
Proof.
  unfold seq. destruct (a st) as [s1 o1]. simpl. by destruct (b s1).
Qed.

Lemma notify_state streamUid action viewer st :
  fst (notifyStreamerAboutViewers streamUid action viewer st) = st.
Proof.
  unfold notifyStreamerAboutViewers.
  destruct (template_room streamUid); [|done].
  by destruct (List.find _ _).
Qed.

Lemma preserves_apply P a st : preserves P a -> P st -> P (fst (a st)).
Proof. intros H. apply H. Qed.

Lemma preserves_seq P a b : preserves P a -> preserves P b -> preserves P (a ;;; b).
Proof. intros Ha Hb st H. rewrite seq_run. simpl. auto. Qed.

Lemma preserves_skip P : preserves P skip.
Proof. by intros st H. Qed.

Lemma preserves_emit P t ev p : preserves P (emit t ev p).
Proof. by intros st H. Qed.

Lemma preserves_notify P streamUid action viewer :
  preserves P (notifyStreamerAboutViewers streamUid action viewer).
Proof. intros st H. by rewrite notify_state. Qed.

Lemma preserves_modify P f : (forall st, P st -> P (f st)) -> preserves P (modify f).
Proof. intros Hf st H. by apply Hf. Qed.

Lemma preserves_with_parsed P parse data socket k :
  (forall v, preserves P (k v)) -> preserves P (with_parsed parse data socket k).
Proof.
  intros Hk st H. unfold with_parsed.
  destruct (parseSocketData _ _ _) as [v o]. destruct (truthy v); [|done].
  specialize (Hk v st H). by destruct (k v st).
Qed.

Lemma preserves_foldr {A} P (f : A -> Action) (l : list A) :
  (forall x, preserves P (f x)) ->
  preserves P (foldr (fun x rest => f x ;;; rest) skip l).
Proof.
  intros Hf. induction l as [|x l IH]; simpl.
  - apply preserves_skip.
  - by apply preserves_seq.
Qed.

Lemma preserves_broadcast P : preserves P broadcastUpdatedStreamsList.
Proof. by intros st H. Qed.

Lemma preserves_snapshot P socket : preserves P (sendInitialStreamsList socket).
Proof. by intros st H. Qed.

(** Reduces a goal [preserves P handler] to the state changes the handler
    makes through [modify]. *)
Ltac preserve_step :=
  match goal with
  | |- preserves _ skip => apply preserves_skip
  | |- preserves _ (emit _ _ _) => apply preserves_emit
  | |- preserves _ (reply _ _) => apply preserves_emit
  | |- preserves _ (sendUserInfo _) => apply preserves_emit
  | |- preserves _ broadcastUpdatedStreamsList => apply preserves_broadcast
  | |- preserves _ (sendInitialStreamsList _) => apply preserves_snapshot
  | |- preserves _ (notifyStreamerAboutViewers _ _ _) => apply preserves_notify
  | |- preserves _ (_ ;;; _) => apply preserves_seq
  | |- preserves _ (with_parsed _ _ _ _) => apply preserves_with_parsed; intros ?
  | |- preserves _ (modify _) => apply preserves_modify
  | |- preserves _ (if ?c then _ else _) => destruct c eqn:?
  | |- preserves _ (match ?c with _ => _ end) => destruct c eqn:?
  | |- preserves _ (fun _ => _) =>
      let st := fresh "st" in
      let H := fresh "Hst" in
      intros st H; cbv beta zeta
  | |- ?P (fst (match ?c with _ => _ end)) => destruct c eqn:?
  | H : ?P ?st |- ?P (fst (?st, _)) => exact H
  | H : ?P ?st |- ?P (fst (?a ?st)) => apply (preserves_apply P a st); [|exact H]
  end.

Ltac preserve := repeat preserve_step.
(** ** The registry as a map *)

Lemma registry_get_set k v m : registry_get k (registry_set k v m) = Some v.
Proof.
  induction m as [|[k' v'] m IH]; simpl.
  - by rewrite eqb_refl.
  - destruct (eqb k' k) eqn:E; simpl.
    + by rewrite eqb_refl.
    + by rewrite E.
Qed.

Lemma registry_get_delete k m : registry_get k (registry_delete k m) = None.
Proof.
  induction m as [|[k' v'] m IH]; simpl; [done|].
  destruct (eqb k' k) eqn:E; simpl; [done|]. by rewrite E.
Qed.

Lemma registry_get_delete_ne k k' m :
  k <> k' -> registry_get k' (registry_delete k m) = registry_get k' m.
Proof.
  intros Hne. induction m as [|[k0 v0] m IH]; simpl; [done|].
  destruct (eqb k0 k) eqn:E; simpl.
  - apply eqb_true in E as ->. apply eqb_false in Hne. by rewrite Hne.
  - by rewrite IH.
Qed.

Lemma registry_keys_delete k k' m :
  k' ∈ map fst (registry_delete k m) -> k' ∈ map fst m.
Proof.
  induction m as [|[k0 v0] m IH]; simpl; [done|].
  destruct (eqb k0 k); simpl; rewrite ?elem_of_cons; intuition.
Qed.

Lemma registry_delete_NoDup k m :
  NoDup (map fst m) -> NoDup (map fst (registry_delete k m)).
Proof.
  induction m as [|[k0 v0] m IH]; simpl; [done|].
  intros H. apply NoDup_cons in H as [Hn H].
  destruct (eqb k0 k); simpl; [auto|].
  apply NoDup_cons. split; [|auto].
  intros Hin. apply Hn. by eapply registry_keys_delete.
Qed.

Lemma registry_keys_set k v k' m :
  k' ∈ map fst (registry_set k v m) -> k' = k \/ k' ∈ map fst m.
Proof.
  induction m as [|[k0 v0] m IH]; simpl.
  - rewrite list_elem_of_singleton. auto.
  - destruct (eqb k0 k) eqn:E; simpl; rewrite !elem_of_cons; [intuition|].
    intros [->|H]; [auto|]. destruct (IH H); auto.
Qed.

Lemma registry_set_NoDup k v m :
  NoDup (map fst m) -> NoDup (map fst (registry_set k v m)).
Proof.
  induction m as [|[k0 v0] m IH]; simpl.
  - intros _. apply NoDup_singleton.
  - intros H. apply NoDup_cons in H as [Hn H].
    destruct (eqb k0 k) eqn:E; simpl.
    + apply eqb_true in E as ->. apply NoDup_cons. auto.
    + apply NoDup_cons. split; [|auto].
      intros Hin. apply registry_keys_set in Hin as [->|Hin]; [|done].
      by rewrite eqb_refl in E.
Qed.

(** ** State changes that leave a component alone *)

Lemma socket_join_sockets id room st : sockets (socket_join id room st) = sockets st.
Proof. done. Qed.

Lemma socket_join_timers id room st :
  timers (socket_join id room st) = timers st
  /\ broadcastTimeout (socket_join id room st) = broadcastTimeout st.
Proof. done. Qed.

Lemma socket_join_registry id room st :
  activeStreamers (socket_join id room st) = activeStreamers st.
Proof. done. Qed.

Lemma socket_join_table id room st : table (socket_join id room st) = table st.
Proof. done. Qed.

Lemma schedule_frame st :
  let st' := fst (scheduleBroadcastUpdate st) in
  sockets st' = sockets st /\ rooms st' = rooms st /\ table st' = table st
  /\ activeStreamers st' = activeStreamers st.
Proof. done. Qed.

(** ** Sockets *)

Lemma same_user_ext socket st st' :
  sockets st' = sockets st -> same_user socket st -> same_user socket st'.
Proof. unfold same_user, sockets_ok. intros ->. done. Qed.

Lemma same_user_watching socket id w a st :
  same_user socket st ->
  same_user socket (update_socket id (Socket.set_watching w a) st).
Proof.
  intros [Hok Hu]. split.
  - intros k s. simpl. rewrite lookup_alter.
    case_decide as Hk; [|apply Hok]. subst k.
    destruct (sockets st !! id) as [s0|] eqn:E; [|done].
    simpl. intros [= <-]. destruct (Hok _ _ E) as [H1 H2]. by split.
  - intros s. simpl. rewrite lookup_alter.
    case_decide as Hk; [|apply Hu].
    destruct (sockets st !! id) as [s0|] eqn:E; [|done].
    simpl. intros [= <-]. simpl. apply Hu. by rewrite <- Hk.
Qed.

Lemma same_user_broadcasting socket b u st :
  is_metro_streamer (Socket.user socket) = true ->
  same_user socket st ->
  same_user socket (update_socket (Socket.id socket) (Socket.set_broadcasting b u) st).
Proof.
  intros Hrole [Hok Hu]. split.
  - intros k s. simpl. rewrite lookup_alter.
    case_decide as Hk; [|apply Hok]. subst k.
    destruct (sockets st !! Socket.id socket) as [s0|] eqn:E; [|done].
    simpl. intros [= <-]. destruct (Hok _ _ E) as [H1 H2]. split; [done|].
    simpl. rewrite (Hu _ eq_refl). congruence.
  - intros s. simpl. rewrite lookup_alter_eq.
    destruct (sockets st !! Socket.id socket) as [s0|] eqn:E; [|done].
    simpl. intros [= <-]. simpl. by apply Hu.
Qed.

Section Invariants.
Variable JSON_parse : jsstring -> option JsValue.

Lemma same_user_schedule socket : preserves (same_user socket) scheduleBroadcastUpdate.
Proof. intros st. by apply same_user_ext. Qed.

Lemma same_user_register socket id u :
  preserves (same_user socket) (registerActiveStreamer id u).
Proof. unfold registerActiveStreamer. destruct (as_string u); [|apply preserves_skip]. intros st. by apply same_user_ext. Qed.

Lemma same_user_unregister socket u :
  preserves (same_user socket) (unregisterActiveStreamer u).
Proof. unfold unregisterActiveStreamer. destruct (as_string u); [|apply preserves_skip]. intros st. by apply same_user_ext. Qed.

Lemma dispatch_same_user socket name data :
  preserves (same_user socket) (dispatch JSON_parse socket name data).
Proof.
  unfold dispatch.
  unfold handleWatchLive, handleStopWatching, handleStartStreaming,
    handleEndStreaming, handleSendMessage, handleTyping.
  preserve;
    try apply same_user_schedule; try apply same_user_register;
    try apply same_user_unregister;
    try (intros ?; apply same_user_ext; by rewrite ?socket_join_sockets);
    try (intros ?; by apply same_user_watching);
    try (intros ?; by apply same_user_broadcasting).
Qed.

(** Handlers that never touch a component: [proj st] stays what it was. *)
Ltac frame_step :=
  let st := fresh "st" in
  let H := fresh "H" in
  intros st H; unfold has in *; rewrite <- H;
  first [ reflexivity
        | apply socket_join_sockets | apply socket_join_registry
        | apply socket_join_table
        | apply (proj1 (socket_join_timers _ _ _)) ].

Lemma schedule_keeps {A} (proj : State -> A) (x : A) :
  (forall st h t, proj (with_timeout h t st) = proj st) ->
  preserves (has proj x) scheduleBroadcastUpdate.
Proof. intros Hp st <-. apply Hp. Qed.

Lemma unregister_keeps {A} (proj : State -> A) (x : A) u :
  (forall st v, proj (with_activeStreamers v st) = proj st) ->
  preserves (has proj x) (unregisterActiveStreamer u).
Proof.
  intros Hp. unfold unregisterActiveStreamer.
  destruct (as_string u); [|apply preserves_skip]. intros st <-. apply Hp.
Qed.

Lemma register_keeps {A} (proj : State -> A) (x : A) id u :
  (forall st v, proj (with_activeStreamers v st) = proj st) ->
  preserves (has proj x) (registerActiveStreamer id u).
Proof.
  intros Hp. unfold registerActiveStreamer.
  destruct (as_string u); [|apply preserves_skip]. intros st <-. apply Hp.
Qed.

Lemma broadcast_state st : fst (broadcastUpdatedStreamsList st) = st.
Proof. done. Qed.

Lemma handleDisconnect_sockets socket m :
  preserves (has sockets m) (handleDisconnect socket).
Proof.
  unfold handleDisconnect. preserve;
    try (by apply schedule_keeps); try (by apply unregister_keeps).
Qed.

Lemma cleanup_sockets uid id m :
  preserves (has sockets m) (cleanupOrphanedStream uid id).
Proof.
  unfold cleanupOrphanedStream. preserve;
    try (by apply schedule_keeps); frame_step.
Qed.

Lemma check_sockets m :
  preserves (has sockets m) checkDisconnectedStreamers.
Proof.
  intros st H. unfold checkDisconnectedStreamers, sweep.
  apply (preserves_foldr (has sockets m) visitStreamer); [|done].
  intros entry st' H'. unfold visitStreamer.
  destruct (socket_lost _ _); [|done].
  by apply cleanup_sockets.
Qed.

Lemma elapse_sockets ms m : preserves (has sockets m) (elapse ms).
Proof.
  intros st H. unfold elapse.
  apply preserves_seq; [| |done].
  - apply (preserves_foldr (has sockets m) (fun e => fire (fst e))).
    intros e. unfold fire. preserve. frame_step.
  - apply preserves_modify. frame_step.
Qed.

Lemma result_eq {A B} (x : A * B) (a : A) (b : B) :
  Some x = Some (a, b) -> a = fst x /\ b = snd x.
Proof. by intros [= ->]. Qed.

Lemma step_sockets_ok st ev st' out :
  sockets_ok st -> step JSON_parse st ev = Some (st', out) -> sockets_ok st'.
Proof.
  intros Hok Hstep. destruct ev as [id user|id name data|id|ms|]; simpl in Hstep.
  - destruct (sockets st !! id) eqn:E; [done|]. apply result_eq in Hstep as [-> _].
    unfold onConnection. rewrite !seq_run. simpl.
    intros k s. rewrite socket_join_sockets. simpl.
    rewrite lookup_insert. case_decide as Hk.
    + intros [= <-]. by subst.
    + apply Hok.
  - destruct (sockets st !! id) as [socket|] eqn:E; [|done].
    apply result_eq in Hstep as [-> _].
    apply (dispatch_same_user socket name data st).
    split; [done|]. destruct (Hok _ _ E) as [-> _]. rewrite E. by intros ? [= <-].
  - destruct (sockets st !! id) as [socket|] eqn:E; [|done].
    apply result_eq in Hstep as [-> _].
    intros k s.
    pose proof (handleDisconnect_sockets socket _ (socket_close id st) eq_refl) as Hs.
    unfold has in Hs. rewrite Hs. simpl.
    intros [_ Hk]%lookup_delete_Some. by apply Hok.
  - apply result_eq in Hstep as [-> _]. intros k s.
    pose proof (elapse_sockets ms _ st eq_refl) as Hs.
    unfold has in Hs. rewrite Hs. apply Hok.
  - apply result_eq in Hstep as [-> _]. intros k s.
    pose proof (check_sockets _ st eq_refl) as Hs.
    unfold has in Hs. rewrite Hs. apply Hok.
Qed.

Lemma reachable_sockets_ok st : reachable JSON_parse st -> sockets_ok st.
Proof.
  induction 1 as [streams|st ev st' out _ IH Hstep].
  - intros k s. simpl. by rewrite lookup_empty.
  - by eapply step_sockets_ok.
Qed.

(** C4, as the code has it: through any sequence of events, a connection
    whose role is not [metro_streamer] is never marked as broadcaster, so at
    most one of its flags [isBroadcaster] and [isAutoViewer] is set. *)
Theorem viewer_role_holds_one_flag (st : State) (id : jsstring)
    (s : AuthenticatedSocket) :
  reachable JSON_parse st ->
  sockets st !! id = Some s ->
  is_metro_streamer (Socket.user s) = false ->
  Socket.isBroadcaster s = false
  /\ Socket.isBroadcaster s && Socket.isAutoViewer s = false.
Proof.
  intros Hr Hs Hrole.
  destruct (reachable_sockets_ok st Hr id s Hs) as [_ Hb].
  rewrite (Hb Hrole). done.
Qed.

End Invariants.
(** ** The broadcast scheduler *)

Lemma timers_ok_ext st st' :
  timers st' = timers st -> broadcastTimeout st' = broadcastTimeout st ->
  timers_ok st -> timers_ok st'.
Proof. unfold timers_ok. by intros -> ->. Qed.

Lemma clear_all h l :
  Forall (fun e : N * N => Some h = Some (fst e)) l ->
  List.filter (fun e => negb (fst e =? h)) l = [].
Proof.
  induction 1 as [|e l He _ IH]; simpl; [done|].
  injection He as ->. by rewrite N.eqb_refl.
Qed.

(** After a call of the scheduler exactly one timeout is armed: the new
    one, due 100 ms from now. *)
Lemma schedule_arms st :
  timers_ok st ->
  scheduleBroadcastUpdate st
  = (with_timeout (Some (next_handle (timers st)))
       {| now := now (timers st);
          armed := [(next_handle (timers st), now (timers st) + 100)];
          next_handle := next_handle (timers st) + 1 |} st, []).
Proof.
  intros [Harmed _]. unfold scheduleBroadcastUpdate, modify. simpl.
  destruct (broadcastTimeout st) as [h|]; simpl.
  - by rewrite (clear_all h _ Harmed).
  - destruct (armed (timers st)) as [|e l]; [done|]. by inversion Harmed.
Qed.

Lemma schedule_timers_ok : preserves timers_ok scheduleBroadcastUpdate.
Proof.
  intros st H. rewrite (schedule_arms st H). split; simpl.
  - by repeat constructor.
  - lia.
Qed.

Lemma fire_timers_ok h : preserves timers_ok (fire h).
Proof.
  unfold fire. preserve. intros st [Ha Hh]. split; simpl; [|done].
  induction Ha as [|e l He _ IH]; simpl; [done|].
  destruct (negb (fst e =? h)); [by constructor|done].
Qed.

Lemma elapse_timers_ok ms : preserves timers_ok (elapse ms).
Proof.
  intros st H. unfold elapse. apply preserves_seq; [| |done].
  - apply (preserves_foldr timers_ok (fun e => fire (fst e))).
    intros e. apply fire_timers_ok.
  - apply preserves_modify. by intros st' [H1 H2].
Qed.

(** Time passing short of the due time fires nothing. *)
Lemma elapse_before_due st h due ms :
  armed (timers st) = [(h, due)] -> now (timers st) + ms < due ->
  elapse ms st = (set_clock (now (timers st) + ms) st, []).
Proof.
  intros Ha Hlt. unfold elapse. rewrite Ha. simpl.
  destruct (due <=? now (timers st) + ms) eqn:E; [apply N.leb_le in E; lia|].
  done.
Qed.

(** Time passing up to the due time fires the timeout once. *)
Lemma elapse_to_due st h due ms :
  armed (timers st) = [(h, due)] -> due <= now (timers st) + ms ->
  snd (elapse ms st) = snd (broadcastUpdatedStreamsList st)
  /\ armed (timers (fst (elapse ms st))) = []
  /\ sockets (fst (elapse ms st)) = sockets st.
Proof.
  intros Ha Hle. unfold elapse. rewrite Ha. simpl.
  apply N.leb_le in Hle. rewrite Hle. simpl.
  split; [reflexivity|]. split; [|reflexivity].
  rewrite Ha. simpl. by rewrite N.eqb_refl.
Qed.

Lemma elapse_nothing_armed st ms :
  armed (timers st) = [] -> snd (elapse ms st) = [].
Proof. intros Ha. unfold elapse. by rewrite Ha. Qed.

(** A burst of calls, each less than 100 ms after the one before, emits
    nothing and leaves exactly one timeout armed, due 100 ms after the
    last call. *)
Lemma burst_arms_once gaps : forall st,
  timers_ok st -> Forall (fun g => g < 100) gaps ->
  snd (burst gaps st) = []
  /\ exists h, armed (timers (fst (burst gaps st)))
               = [(h, now (timers (fst (burst gaps st))) + 100)].
Proof.
  induction gaps as [|g gaps IH]; intros st Hok Hgaps.
  - change (burst []) with (scheduleBroadcastUpdate ;;; skip).
    rewrite seq_run, (schedule_arms st Hok). simpl. eauto.
  - inversion Hgaps as [|? ? Hg Hrest]; subst.
    change (burst (g :: gaps))
      with (scheduleBroadcastUpdate ;;; elapse g ;;; burst gaps).
    rewrite !seq_run, (schedule_arms st Hok).
    cbn [fst snd app].
    set (st1 := with_timeout _ _ st).
    assert (Hst1 : timers_ok st1).
    { pose proof (schedule_timers_ok st Hok) as H.
      by rewrite (schedule_arms st Hok) in H. }
    rewrite (elapse_before_due st1 (next_handle (timers st))
               (now (timers st) + 100) g); [|done|simpl; lia].
    cbn [fst snd app].
    assert (Hst2 : timers_ok (set_clock (now (timers st1) + g) st1)).
    { destruct Hst1 as [H1 H2]. by split. }
    destruct (IH _ Hst2 Hrest) as [Hout Harmed].
    by rewrite Hout.
Qed.

(** C7: [n >= 1] calls of the scheduler, each within the 100 ms window the
    call before it opened, lead to exactly one [streams-list] broadcast to
    all clients; it is emitted once 100 ms have passed since the last call,
    not before, and not again. *)
Theorem debounce_coalesces (st : State) (gaps : list N) (quiet : N) :
  timers_ok st ->
  Forall (fun g => g < 100) gaps ->
  let st1 := fst (burst gaps st) in
  snd (burst gaps st) = []
  /\ (quiet < 100 -> snd (elapse quiet st1) = [])
  /\ (100 <= quiet ->
      snd (elapse quiet st1) = snd (broadcastUpdatedStreamsList st1)
      /\ (exists p, snd (elapse quiet st1)
                    = [{| target := ToAll; event := "streams-list"; payload := p |}])
      /\ length (broadcasts (snd (elapse quiet st1))) = 1%nat
      /\ forall later, snd (elapse later (fst (elapse quiet st1))) = []).
Proof.
  intros Hok Hgaps st1.
  destruct (burst_arms_once gaps st Hok Hgaps) as [Hout [h Harmed]].
  fold st1 in Harmed. split; [done|]. split.
  - intros Hq. rewrite (elapse_before_due st1 h _ quiet Harmed); [done|lia].
  - intros Hq.
    destruct (elapse_to_due st1 h _ quiet Harmed) as (Hsnd & Hnone & _); [lia|].
    rewrite Hsnd. repeat split.
    + eexists. reflexivity.
    + intros later. by apply elapse_nothing_armed.
Qed.

(** ** Invariants of the timers and of the registry *)

Lemma registry_ok_ext st st' :
  activeStreamers st' = activeStreamers st -> registry_ok st -> registry_ok st'.
Proof. unfold registry_ok. by intros ->. Qed.

Lemma register_registry_ok id u : preserves registry_ok (registerActiveStreamer id u).
Proof.
  unfold registerActiveStreamer. destruct (as_string u); [|apply preserves_skip].
  intros st H. by apply registry_set_NoDup.
Qed.

Lemma unregister_registry_ok u : preserves registry_ok (unregisterActiveStreamer u).
Proof.
  unfold unregisterActiveStreamer. destruct (as_string u); [|apply preserves_skip].
  intros st H. by apply registry_delete_NoDup.
Qed.

Lemma register_timers_ok id u : preserves timers_ok (registerActiveStreamer id u).
Proof.
  unfold registerActiveStreamer. destruct (as_string u); [|apply preserves_skip].
  by intros st H.
Qed.

Lemma unregister_timers_ok u : preserves timers_ok (unregisterActiveStreamer u).
Proof.
  unfold unregisterActiveStreamer. destruct (as_string u); [|apply preserves_skip].
  by intros st H.
Qed.

Lemma schedule_registry_ok : preserves registry_ok scheduleBroadcastUpdate.
Proof. by intros st H. Qed.

(** Closes the goals [preserve] leaves for a state change that does not
    touch the component the invariant speaks about. *)
Ltac untouched :=
  let st := fresh "st" in
  let H := fresh "H" in
  intros st H;
  first
    [ apply (timers_ok_ext st); [| |exact H];
      first [ reflexivity
            | apply (proj1 (socket_join_timers _ _ _))
            | apply (proj2 (socket_join_timers _ _ _)) ]
    | apply (registry_ok_ext st); [|exact H];
      first [ reflexivity | apply socket_join_registry ] ].

Ltac invariant_step :=
  first
    [ apply schedule_timers_ok | apply schedule_registry_ok
    | apply register_registry_ok | apply unregister_registry_ok
    | apply register_timers_ok | apply unregister_timers_ok
    | untouched ].

Section TimersAndRegistry.

Variable JSON_parse : jsstring -> option JsValue.

Lemma dispatch_timers_ok socket name data :
  preserves timers_ok (dispatch JSON_parse socket name data).
Proof.
  unfold dispatch, handleWatchLive, handleStopWatching, handleStartStreaming,
    handleEndStreaming, handleSendMessage, handleTyping.
  preserve; invariant_step.
Qed.

Lemma dispatch_registry_ok socket name data :
  preserves registry_ok (dispatch JSON_parse socket name data).
Proof.
  unfold dispatch, handleWatchLive, handleStopWatching, handleStartStreaming,
    handleEndStreaming, handleSendMessage, handleTyping.
  preserve; invariant_step.
Qed.

Lemma handleDisconnect_timers_ok socket : preserves timers_ok (handleDisconnect socket).
Proof. unfold handleDisconnect. preserve; invariant_step. Qed.

Lemma handleDisconnect_registry_ok socket :
  preserves registry_ok (handleDisconnect socket).
Proof. unfold handleDisconnect. preserve; invariant_step. Qed.

Lemma cleanup_timers_ok uid id : preserves timers_ok (cleanupOrphanedStream uid id).
Proof. unfold cleanupOrphanedStream. preserve; invariant_step. Qed.

Lemma cleanup_registry_ok uid id :
  preserves registry_ok (cleanupOrphanedStream uid id).
Proof.
  unfold cleanupOrphanedStream. preserve; try invariant_step.
  intros st H. by apply registry_delete_NoDup.
Qed.

Lemma check_preserves P :
  (forall uid id, preserves P (cleanupOrphanedStream uid id)) ->
  preserves P checkDisconnectedStreamers.
Proof.
  intros Hc st H. unfold checkDisconnectedStreamers, sweep.
  apply (preserves_foldr P visitStreamer); [|done].
  intros entry st' H'. unfold visitStreamer.
  destruct (socket_lost _ _); [|done].
  by apply Hc.
Qed.

Lemma elapse_registry_ok ms : preserves registry_ok (elapse ms).
Proof.
  intros st H. unfold elapse. apply preserves_seq; [| |done].
  - apply (preserves_foldr registry_ok (fun e => fire (fst e))).
    intros e. unfold fire. preserve. untouched.
  - apply preserves_modify. untouched.
Qed.

Lemma onConnection_timers_ok id user : preserves timers_ok (onConnection id user).
Proof. unfold onConnection. preserve; invariant_step. Qed.

Lemma onConnection_registry_ok id user : preserves registry_ok (onConnection id user).
Proof. unfold onConnection. preserve; invariant_step. Qed.

(** Every event keeps the timers and the registry well-formed. *)
Lemma step_timers_registry st ev st' out :
  timers_ok st /\ registry_ok st ->
  step JSON_parse st ev = Some (st', out) ->
  timers_ok st' /\ registry_ok st'.
Proof.
  intros [Ht Hr] Hstep.
  destruct ev as [id user|id name data|id|ms|]; simpl in Hstep.
  - destruct (sockets st !! id); [done|].
    apply result_eq in Hstep as [-> _].
    split; [by apply onConnection_timers_ok|by apply onConnection_registry_ok].
  - destruct (sockets st !! id) as [socket|]; [|done].
    apply result_eq in Hstep as [-> _].
    split; [by apply dispatch_timers_ok|by apply dispatch_registry_ok].
  - destruct (sockets st !! id) as [socket|]; [|done].
    apply result_eq in Hstep as [-> _].
    split; [by apply handleDisconnect_timers_ok|by apply handleDisconnect_registry_ok].
  - apply result_eq in Hstep as [-> _].
    split; [by apply elapse_timers_ok|by apply elapse_registry_ok].
  - apply result_eq in Hstep as [-> _].
    split; apply check_preserves; auto using cleanup_timers_ok, cleanup_registry_ok.
Qed.

Lemma reachable_timers_registry st :
  reachable JSON_parse st -> timers_ok st /\ registry_ok st.
Proof.
  induction 1 as [streams|st ev st' out _ IH Hstep].
  - repeat split; simpl; constructor.
  - by eapply step_timers_registry.
Qed.

End TimersAndRegistry.

(** ** Starting a stream *)

Lemma find_nothing {A} (f : A -> bool) (l : list A) :
  (forall x, x ∈ l -> f x = false) -> List.find f l = None.
Proof.
  induction l as [|x l IH]; simpl; [done|]. intros H.
  rewrite (H x) by apply list_elem_of_here.
  apply IH. intros y Hy. apply H. by apply list_elem_of_further.
Qed.

Section StartStreaming.

Variable JSON_parse : jsstring -> option JsValue.

Lemma dispatch_start_streaming socket data :
  dispatch JSON_parse socket "start_streaming" data
  = if is_metro_streamer (Socket.user socket)
    then handleStartStreaming JSON_parse socket data
    else skip.
Proof. reflexivity. Qed.

(** C2, as the code has it: [start_streaming] from a connection whose role
    is not [metro_streamer] has no listener and changes and answers nothing;
    from a streamer that does not own the stream it is answered with the
    not-found / no-permission error, and nothing changes either: the stream
    record keeps its status and the connection is not marked as
    broadcaster. *)
Theorem start_streaming_rejected (st : State) (id : jsstring)
    (socket : AuthenticatedSocket) (data : JsValue) :
  sockets st !! id = Some socket ->
  (is_metro_streamer (Socket.user socket) = false ->
   step JSON_parse st (Message id "start_streaming" data) = Some (st, []))
  /\ (forall parsed out uid,
      is_metro_streamer (Socket.user socket) = true ->
      parseSocketData JSON_parse data socket = (parsed, out) ->
      truthy parsed = true ->
      field parsed "streamUid" = JString uid ->
      (forall r, r ∈ table st -> Prisma.uid r = uid ->
                 Prisma.userId r <> Jwt.id (Socket.user socket)) ->
      step JSON_parse st (Message id "start_streaming" data)
      = Some (st, [{| target := ToSocket (Socket.id socket); event := "error";
                      payload :=
                        ErrorReply None
                          (lit "Stream no encontrado o no tienes permisos") |}])).
Proof.
  intros Hs. split.
  - intros Hrole. simpl. by rewrite Hs, dispatch_start_streaming, Hrole.
  - intros parsed out uid Hrole Hparse Ht Huid Hother.
    pose proof (parse_truthy_silent JSON_parse _ _ _ _ Hparse Ht) as ->.
    simpl. rewrite Hs, dispatch_start_streaming, Hrole.
    unfold handleStartStreaming, with_parsed. rewrite Hparse, Ht, Huid.
    simpl. rewrite find_nothing; [done|].
    intros r Hr. unfold Prisma.has_uid, Prisma.has_userId.
    destruct (eqb (Prisma.uid r) uid) eqn:E; [|done]. simpl.
    apply eqb_true in E. apply eqb_false. by apply Hother.
Qed.

Lemma parse_output_errors data socket :
  Forall (fun e => event e = "error"%string)
    (snd (parseSocketData JSON_parse data socket)).
Proof.
  unfold parseSocketData. destruct data; simpl; try constructor.
  destruct (JSON_parse s); [constructor|].
  destruct (JSON_parse (quote_bare_keys s)); by repeat constructor.
Qed.

Lemma handleStartStreaming_success socket data st parsed uid row updated :
  parseSocketData JSON_parse data socket = (parsed, []) ->
  truthy parsed = true ->
  field parsed "streamUid" = JString uid ->
  Prisma.findFirst (JString uid)
    (Prisma.has_userId (Jwt.id (Socket.user socket))) (table st)
  = Prisma.Ok (Some row) ->
  Prisma.update (JString uid) (lit "active") (table st) = Prisma.Ok updated ->
  handleStartStreaming JSON_parse socket data st
  = (started socket uid updated st,
     [{| target := ToSocket (Socket.id socket); event := "stream_started";
         payload := StreamStarted (JString uid) (lit "true") |}]).
Proof.
  intros Hp Ht Hu Hf Hupd.
  unfold handleStartStreaming, with_parsed. rewrite Hp, Ht, Hu, Hf, Hupd.
  reflexivity.
Qed.

(** [start_streaming] either is refused, changing nothing and sending only
    errors, or goes through for a stream of the caller. *)
Lemma handleStartStreaming_cases socket data st :
  let r := handleStartStreaming JSON_parse socket data st in
  (fst r = st /\ Forall (fun e => event e = "error"%string) (snd r))
  \/ (exists uid updated row,
        Prisma.findFirst (JString uid)
          (Prisma.has_userId (Jwt.id (Socket.user socket))) (table st)
        = Prisma.Ok (Some row)
        /\ Prisma.update (JString uid) (lit "active") (table st) = Prisma.Ok updated
        /\ r = (started socket uid updated st,
                [{| target := ToSocket (Socket.id socket); event := "stream_started";
                    payload := StreamStarted (JString uid) (lit "true") |}])).
Proof.
  cbv zeta.
  destruct (parseSocketData JSON_parse data socket) as [parsed o] eqn:Hp.
  destruct (truthy parsed) eqn:Ht.
  2:{ left. unfold handleStartStreaming, with_parsed. rewrite Hp, Ht.
      split; [done|]. pose proof (parse_output_errors data socket) as H.
      by rewrite Hp in H. }
  pose proof (parse_truthy_silent JSON_parse _ _ _ _ Hp Ht) as ->.
  destruct (Prisma.findFirst (field parsed "streamUid")
              (Prisma.has_userId (Jwt.id (Socket.user socket))) (table st))
    as [[row|]|] eqn:Hf;
    [|left; unfold handleStartStreaming, with_parsed; rewrite Hp, Ht, Hf;
      split; [done|by repeat constructor]..].
  destruct (Prisma.update (field parsed "streamUid") (lit "active") (table st))
    as [updated|] eqn:Hupd;
    [|left; unfold handleStartStreaming, with_parsed; rewrite Hp, Ht, Hf, Hupd;
      split; [done|by repeat constructor]].
  destruct (field parsed "streamUid") as [| |?|?|uid|?|?] eqn:Hu; try done.
  right. exists uid, updated, row. repeat split; try done.
  by eapply handleStartStreaming_success.
Qed.

Lemma start_streaming_confirmed st c data st' out uid :
  sockets_ok st ->
  step JSON_parse st (Message c "start_streaming" data) = Some (st', out) ->
  confirms uid out ->
  exists socket updated,
    sockets st !! c = Some socket /\ Socket.id socket = c
    /\ st' = started socket uid updated st.
Proof.
  intros Hok Hstep (e & status & He & Hev & Hp). simpl in Hstep.
  destruct (sockets st !! c) as [socket|] eqn:Hs; [|done].
  apply result_eq in Hstep as [-> ->].
  rewrite dispatch_start_streaming in *.
  destruct (is_metro_streamer _); [|by apply elem_of_nil in He].
  destruct (handleStartStreaming_cases socket data st)
    as [[_ Herr]|(uid' & updated & row & _ & _ & Hr)].
  - rewrite Forall_forall in Herr. specialize (Herr e He). congruence.
  - rewrite Hr in *. simpl in He. apply list_elem_of_singleton in He as ->.
    simpl in Hp. injection Hp as -> _.
    exists socket, updated. by destruct (Hok _ _ Hs) as [-> _].
Qed.

(** C5, as the code has it: in every reachable state the registry holds at
    most one entry per stream, and after the same stream was started from two
    connections one after the other the entry names the later one; the flags
    of the earlier connection are not touched, so both stay marked as
    broadcaster of the stream. *)
Theorem registry_tracks_latest_start (st : State) :
  reachable JSON_parse st ->
  registry_ok st
  /\ forall st1 st2 c1 c2 uid data1 data2 out1 out2,
       c1 <> c2 ->
       step JSON_parse st (Message c1 "start_streaming" data1) = Some (st1, out1) ->
       confirms uid out1 ->
       step JSON_parse st1 (Message c2 "start_streaming" data2) = Some (st2, out2) ->
       confirms uid out2 ->
       registry_ok st2
       /\ registry_get uid (activeStreamers st2)
          = Some {| socketId := c2; tracked := uid |}
       /\ exists s1 s2,
            sockets st2 !! c1 = Some s1 /\ sockets st2 !! c2 = Some s2
            /\ broadcasts_stream uid s1 /\ broadcasts_stream uid s2.
Proof.
  intros Hr. split; [apply (reachable_timers_registry _ _ Hr)|].
  intros st1 st2 c1 c2 uid data1 data2 out1 out2 Hne Hstep1 Hc1 Hstep2 Hc2.
  assert (Hr1 : reachable JSON_parse st1) by (by eapply reachable_step).
  assert (Hr2 : reachable JSON_parse st2) by (by eapply reachable_step).
  destruct (start_streaming_confirmed _ _ _ _ _ _
              (reachable_sockets_ok _ _ Hr) Hstep1 Hc1)
    as (socket1 & upd1 & Hs1 & Hid1 & ->).
  destruct (start_streaming_confirmed _ _ _ _ _ _
              (reachable_sockets_ok _ _ Hr1) Hstep2 Hc2)
    as (socket2 & upd2 & Hs2 & Hid2 & ->).
  split; [apply (reachable_timers_registry _ _ Hr2)|]. split.
  - simpl. rewrite Hid2. apply registry_get_set.
  - simpl in Hs2. rewrite Hid1 in Hs2.
    rewrite lookup_alter_ne in Hs2 by done.
    exists (Socket.set_broadcasting true (Some uid) socket1),
           (Socket.set_broadcasting true (Some uid) socket2).
    simpl. rewrite Hid1, Hid2. split; [|split; [|done]].
    + rewrite lookup_alter_ne, lookup_alter_eq, Hs1 by done. done.
    + rewrite lookup_alter_eq, lookup_alter_ne, Hs2 by done. done.
Qed.

End StartStreaming.

(** ** Disconnect and orphan reconciliation *)

Lemma registry_get_In k v m : registry_get k m = Some v -> (k, v) ∈ m.
Proof.
  induction m as [|[k' v'] m IH]; simpl; [done|].
  destruct (eqb k' k) eqn:E.
  - apply eqb_true in E as ->. intros [= ->]. apply list_elem_of_here.
  - intros H. apply list_elem_of_further. auto.
Qed.

Lemma registry_delete_untracked k k' m :
  registry_get k m = None -> registry_get k (registry_delete k' m) = None.
Proof.
  induction m as [|[k0 v0] m IH]; simpl; [done|].
  destruct (eqb k0 k) eqn:E; [done|]. intros H.
  destruct (eqb k0 k'); simpl; [auto|]. rewrite E. auto.
Qed.

Lemma update_rows k v tbl upd :
  Prisma.update (JString k) v tbl = Prisma.Ok upd ->
  upd = map (fun r => if Prisma.has_uid k r then Prisma.set_status v r else r) tbl
  /\ existsb (Prisma.has_uid k) tbl = true.
Proof.
  simpl. destruct (existsb _ _); [|done]. by intros [= <-].
Qed.

Lemma update_sets_status k v tbl upd r :
  Prisma.update (JString k) v tbl = Prisma.Ok upd ->
  r ∈ upd -> Prisma.uid r = k -> Prisma.status r = Some v.
Proof.
  intros [-> _]%update_rows Hr Hk.
  apply list_elem_of_fmap in Hr as (r0 & -> & _).
  destruct (Prisma.has_uid k r0) eqn:E; [done|].
  apply eqb_false in E. done.
Qed.

Lemma update_keeps_status k k' v tbl upd r :
  Prisma.update (JString k') v tbl = Prisma.Ok upd ->
  (forall r0, r0 ∈ tbl -> Prisma.uid r0 = k -> Prisma.status r0 = Some v) ->
  r ∈ upd -> Prisma.uid r = k -> Prisma.status r = Some v.
Proof.
  intros [-> _]%update_rows Hold Hr Hk.
  apply list_elem_of_fmap in Hr as (r0 & -> & Hr0).
  destruct (Prisma.has_uid k' r0); [done|]. by apply Hold.
Qed.

Lemma update_keeps_rows k k' v tbl upd :
  Prisma.update (JString k') v tbl = Prisma.Ok upd ->
  existsb (Prisma.has_uid k) upd = existsb (Prisma.has_uid k) tbl.
Proof.
  intros [-> _]%update_rows. induction tbl as [|r tbl IH]; simpl; [done|].
  rewrite IH. f_equal. by destruct (Prisma.has_uid k' r).
Qed.

Lemma cleanup_untracked uid k id :
  preserves (untracked uid) (cleanupOrphanedStream k id).
Proof.
  unfold cleanupOrphanedStream. preserve; try by (intros st' H').
  intros st' H'. by apply registry_delete_untracked.
Qed.

Lemma cleanup_offline uid k id :
  preserves (offline uid) (cleanupOrphanedStream k id).
Proof.
  unfold cleanupOrphanedStream. preserve; try by (intros st' H').
  intros st' _ r Hr Hk. simpl in Hr. by eapply update_keeps_status.
Qed.

Lemma cleanup_recorded uid k id :
  preserves (recorded uid) (cleanupOrphanedStream k id).
Proof.
  unfold cleanupOrphanedStream. preserve; try by (intros st' H').
  intros st' _. unfold recorded. simpl.
  by erewrite update_keeps_rows.
Qed.

Lemma visit_preserves P entry :
  (forall k id, preserves P (cleanupOrphanedStream k id)) ->
  preserves P (visitStreamer entry).
Proof.
  intros Hc st H. unfold visitStreamer.
  destruct (socket_lost _ _); [|done]. by apply Hc.
Qed.

Lemma sweep_preserves P entries :
  (forall k id, preserves P (cleanupOrphanedStream k id)) ->
  preserves P (sweep entries).
Proof. intros Hc. apply preserves_foldr. intros entry. by apply visit_preserves. Qed.

Lemma socket_lost_ext id st st' :
  sockets st' = sockets st -> socket_lost id st' = socket_lost id st.
Proof. unfold socket_lost. by intros ->. Qed.

(** A lost streamer that the sweep meets is cleaned up: its entry goes, its
    stream record is set offline, and [stream_ended] is sent to everyone. *)
Lemma sweep_cleans uid info entries : forall st,
  (uid, info) ∈ entries ->
  socket_lost (socketId info) st = true ->
  recorded uid st ->
  let r := sweep entries st in
  untracked uid (fst r) /\ offline uid (fst r) /\ tcp_ended uid ∈ snd r.
Proof.
  induction entries as [|entry entries IH]; intros st Hin Hlost Hrec.
  - by apply elem_of_nil in Hin.
  - cbv zeta. change (sweep (entry :: entries))
      with (visitStreamer entry ;;; sweep entries).
    rewrite seq_run. cbn [fst snd].
    apply elem_of_cons in Hin as [<-|Hin].
    + unfold visitStreamer at 1 3. cbn [fst snd]. rewrite Hlost.
      unfold visitStreamer. cbn [fst snd]. rewrite Hlost.
      unfold cleanupOrphanedStream. rewrite !seq_run. cbn [fst snd modify].
      unfold recorded in Hrec.
      destruct (Prisma.update (JString uid) (lit "offline") (table st))
        as [upd|] eqn:Hupd; [|simpl in Hupd; by rewrite Hrec in Hupd].
      cbn [table with_activeStreamers].
      rewrite Hupd, !seq_run. cbn [fst snd modify emit].
      repeat split.
      * apply sweep_preserves; [intros; apply cleanup_untracked|].
        apply registry_get_delete.
      * apply sweep_preserves; [intros; apply cleanup_offline|].
        intros r Hr Hk. simpl in Hr. by eapply update_sets_status.
      * apply elem_of_app. left. simpl. apply list_elem_of_here.
    + destruct (IH (fst (visitStreamer entry st)) Hin) as (H1 & H2 & H3).
      * rewrite <- Hlost. apply socket_lost_ext.
        apply (visit_preserves (has sockets (sockets st))); [|done].
        intros k id. apply cleanup_sockets.
      * apply visit_preserves; [|done]. intros k id. apply cleanup_recorded.
      * repeat split; [done..|]. apply elem_of_app. by right.
Qed.

Lemma notify_output streamUid action viewer st :
  Forall (fun e => event e = "viewer_update"%string)
    (snd (notifyStreamerAboutViewers streamUid action viewer st)).
Proof.
  unfold notifyStreamerAboutViewers.
  destruct (template_room streamUid); [|constructor].
  destruct (List.find _ _); by repeat constructor.
Qed.


Section Disconnect.

Variable JSON_parse : jsstring -> option JsValue.


End Disconnect.

(** ** Leaving a stream *)


Lemma not_in_without (id : jsstring) (l : list jsstring) : forall i, i ∈ without id l -> i <> id.
Proof.
  intros i Hi. apply list_elem_of_In, filter_In in Hi as [_ Hi].
  apply negb_true_iff, eqb_false in Hi. done.
Qed.



Lemma members_stopped id uid st :
  members (stream_room uid) (stopped id uid st)
  = without id (members (stream_room uid) st).
Proof. unfold members. simpl. by rewrite lookup_insert_eq. Qed.






Section StopWatching.

Variable JSON_parse : jsstring -> option JsValue.

Lemma parseSocketData_id data s s' :
  Socket.id s = Socket.id s' ->
  parseSocketData JSON_parse data s = parseSocketData JSON_parse data s'.
Proof. unfold parseSocketData. by intros ->. Qed.

Lemma handleStopWatching_run socket data st parsed uid :
  parseSocketData JSON_parse data socket = (parsed, []) ->
  truthy parsed = true ->
  field parsed "streamUid" = JString uid ->
  handleStopWatching JSON_parse socket data st
  = (fst (scheduleBroadcastUpdate (stopped (Socket.id socket) uid st)),
     snd (notifyStreamerAboutViewers (JString uid) Left (viewerInfo socket None)
            (stopped (Socket.id socket) uid st))).
Proof.
  intros Hp Ht Hu. unfold handleStopWatching, with_parsed.
  rewrite Hp, Ht, Hu. unfold template_room. cbn [toString fmap option_fmap option_map].
  rewrite !seq_run. cbn [fst snd modify app].
  rewrite notify_state. fold (stopped (Socket.id socket) uid st).
  by rewrite app_nil_r.
Qed.


End StopWatching.

(** ** The debounced broadcast reports the live count *)

Lemma count_viewers st (ids : list jsstring) :
  length (List.filter is_viewer (omap (fun i => sockets st !! i) ids))
  = length (List.filter (live_viewer st) ids).
Proof.
  induction ids as [|i ids IH]; [done|]. csimpl. unfold live_viewer at 1.
  destruct (sockets st !! i) as [s|]; simpl; [|done].
  unfold is_viewer. rewrite andb_comm.
  destruct (Socket.isAutoViewer s && negb (Socket.isBroadcaster s)); simpl;
    [f_equal|]; exact IH.
Qed.

(** Every count of the debounced [streams-list] is the number of viewers in
    the stream's room at the moment of the broadcast. *)
Lemma broadcast_counts_live st :
  exists views,
    broadcastUpdatedStreamsList st
    = (st, [{| target := ToAll; event := "streams-list";
               payload := StreamsList views (length views) true |}])
    /\ Forall (fun v => viewersCount v
                        = viewers_in_room (Prisma.uid (sv_stream v)) st) views.
Proof.
  eexists. split; [reflexivity|].
  apply Forall_forall. intros v Hv.
  apply list_elem_of_fmap in Hv as (stream & -> & _). simpl.
  apply count_viewers.
Qed.

(** ** The theorems on the scenarios *)

(** The state a trace of events ends in is reachable. *)
Lemma run_reachable parse evs : forall st st' out,
  reachable parse st -> run parse st evs = Some (st', out) -> reachable parse st'.
Proof.
  induction evs as [|ev evs IH]; simpl; intros st st' out Hr Hrun.
  - by injection Hrun as <- _.
  - destruct (step parse st ev) as [[st1 o1]|] eqn:Hstep; [|done].
    destruct (run parse st1 evs) as [[st2 o2]|] eqn:Hrest; [|done].
    injection Hrun as <- _. eapply IH; [|exact Hrest].
    by eapply reachable_step.
Qed.

Lemma after_reachable evs :
  is_Some (run JSON_parse_rejecting (initial Scenario.streams) evs) ->
  reachable JSON_parse_rejecting (Scenario.after evs).
Proof.
  intros [[st out] H]. unfold Scenario.after. rewrite H.
  eapply run_reachable; [apply reachable_initial|exact H].
Qed.

(** [start_streaming_rejected] on Vera, who has no streamer role, and on Bob,
    who asks for Alice's stream. *)
Lemma start_streaming_rejected_witness :
  step JSON_parse_rejecting Scenario.vera_watching
    (Message Scenario.v1 "start_streaming" (stream_data Scenario.S1))
  = Some (Scenario.vera_watching, [])
  /\ step JSON_parse_rejecting Scenario.alice_live
       (Message Scenario.b1 "start_streaming" (stream_data Scenario.S1))
     = Some (Scenario.alice_live,
             [{| target := ToSocket Scenario.b1; event := "error";
                 payload := ErrorReply None
                              (lit "Stream no encontrado o no tienes permisos") |}]).
Proof.
  split.
  - apply (start_streaming_rejected JSON_parse_rejecting Scenario.vera_watching
             Scenario.v1 Scenario.vera_viewing); reflexivity.
  - apply (proj2 (start_streaming_rejected JSON_parse_rejecting
                    Scenario.alice_live Scenario.b1 Scenario.bob_idle
                    (stream_data Scenario.S1) eq_refl)
             (stream_data Scenario.S1) [] Scenario.S1); try reflexivity.
    intros r Hr Hu Ho. vm_compute in Hr.
    repeat (apply elem_of_cons in Hr as [->|Hr]); try discriminate.
    by apply elem_of_nil in Hr.
Defined.

(** [viewer_role_holds_one_flag] on Vera while she watches Alice. *)
Lemma viewer_role_holds_one_flag_witness :
  reachable JSON_parse_rejecting Scenario.vera_watching
  /\ sockets Scenario.vera_watching !! Scenario.v1 = Some Scenario.vera_viewing
  /\ is_metro_streamer (Socket.user Scenario.vera_viewing) = false
  /\ Socket.isBroadcaster Scenario.vera_viewing = false
  /\ Socket.isBroadcaster Scenario.vera_viewing && Socket.isAutoViewer Scenario.vera_viewing = false.
Proof.
  assert (Hr : reachable JSON_parse_rejecting Scenario.vera_watching).
  { apply after_reachable. vm_compute. eauto. }
  split; [exact Hr|]. split; [reflexivity|]. split; [reflexivity|].
  apply (viewer_role_holds_one_flag JSON_parse_rejecting Scenario.vera_watching
           Scenario.v1 Scenario.vera_viewing Hr); reflexivity.
Defined.

(** [registry_tracks_latest_start] on Alice going live from two connections. *)
Lemma registry_tracks_latest_start_witness :
  registry_ok Scenario.alice_connected_twice
  /\ registry_ok Scenario.alice_twice
  /\ registry_get Scenario.S1 (activeStreamers Scenario.alice_twice)
     = Some {| socketId := Scenario.a2; tracked := Scenario.S1 |}
  /\ exists s1 s2,
       sockets Scenario.alice_twice !! Scenario.a1 = Some s1
       /\ sockets Scenario.alice_twice !! Scenario.a2 = Some s2
       /\ broadcasts_stream Scenario.S1 s1 /\ broadcasts_stream Scenario.S1 s2.
Proof.
  destruct (registry_tracks_latest_start JSON_parse_rejecting
              Scenario.alice_connected_twice) as [Hok Hlatest].
  { apply after_reachable. vm_compute. eauto. }
  split; [exact Hok|].
  apply (Hlatest Scenario.alice_once Scenario.alice_twice
           Scenario.a1 Scenario.a2 Scenario.S1
           (stream_data Scenario.S1) (stream_data Scenario.S1)
           [Scenario.started_notice Scenario.a1 Scenario.S1]
           [Scenario.started_notice Scenario.a2 Scenario.S1]).
  - vm_compute. discriminate.
  - vm_compute. reflexivity.
  - exists (Scenario.started_notice Scenario.a1 Scenario.S1), (lit "true").
    split; [apply list_elem_of_here|]. split; reflexivity.
  - vm_compute. reflexivity.
  - exists (Scenario.started_notice Scenario.a2 Scenario.S1), (lit "true").
    split; [apply list_elem_of_here|]. split; reflexivity.
Defined.


(** [debounce_coalesces] on four calls 30, 50 and 99 ms apart. *)
Lemma debounce_coalesces_witness :
  timers_ok Scenario.vera_watching
  /\ Forall (fun g => g < 100) [30; 50; 99]
  /\ (let st1 := fst (burst [30; 50; 99] Scenario.vera_watching) in
      snd (burst [30; 50; 99] Scenario.vera_watching) = []
      /\ snd (elapse 99 st1) = []
      /\ length (broadcasts (snd (elapse 100 st1))) = 1%nat
      /\ snd (elapse 500 (fst (elapse 100 st1))) = []).
Proof.
  assert (Hok : timers_ok Scenario.vera_watching).
  { vm_compute. split; [|reflexivity]. repeat constructor. }
  assert (Hgaps : Forall (fun g => g < 100) [30; 50; 99]).
  { repeat constructor. }
  split; [exact Hok|]. split; [exact Hgaps|].
  destruct (debounce_coalesces Scenario.vera_watching [30; 50; 99] 99 Hok Hgaps)
    as (Hburst & Hearly & _).
  destruct (debounce_coalesces Scenario.vera_watching [30; 50; 99] 100 Hok Hgaps)
    as (_ & _ & Hdue).
  destruct Hdue as (_ & _ & Hone & Hlater); [discriminate|].
  cbv zeta. split; [exact Hburst|]. split; [apply Hearly; reflexivity|].
  split; [exact Hone|apply Hlater].
Defined.


(** [send_message_validation] on a blank message and on a padded one. *)
Lemma send_message_validation_witness :
  (exists text,
     handleSendMessage JSON_parse_rejecting Scenario.vera_viewing
       (chat_data Scenario.S1 (lit "   ")) Scenario.vera_watching
     = (Scenario.vera_watching,
        [{| target := ToSocket Scenario.v1; event := "error";
            payload := ErrorReply (Some (lit "send-message")) text |}]))
  /\ (exists user,
        handleSendMessage JSON_parse_rejecting Scenario.vera_viewing
          (chat_data Scenario.S1 (lit " hola ")) Scenario.vera_watching
        = (Scenario.vera_watching,
           [{| target := ToRoom (stream_room Scenario.S1); event := "new-message";
               payload := NewMessage (JString Scenario.S1) user (lit "hola") |}])).
Proof.
  split.
  - apply (proj1 (send_message_validation JSON_parse_rejecting
                    Scenario.vera_watching Scenario.vera_viewing
                    (chat_data Scenario.S1 (lit "   "))
                    (chat_data Scenario.S1 (lit "   ")) [] eq_refl)).
    + reflexivity.
    + left. exists (lit "   "). split; [reflexivity|]. by repeat constructor.
  - apply (proj2 (proj2 (send_message_validation JSON_parse_rejecting
                    Scenario.vera_watching Scenario.vera_viewing
                    (chat_data Scenario.S1 (lit " hola "))
                    (chat_data Scenario.S1 (lit " hola ")) [] eq_refl))
             Scenario.S1 (lit " hola ")); try reflexivity.
    + vm_compute. discriminate.
    + vm_compute. discriminate.
Defined.

(** [new_message_envelope] on Alice chatting in her own stream. *)
Lemma new_message_envelope_witness :
  exists user,
    step JSON_parse_rejecting Scenario.alice_live
      (Message Scenario.a1 "send-message" (chat_data Scenario.S1 (lit "hola")))
    = Some (Scenario.alice_live,
            [{| target := ToRoom (stream_room Scenario.S1); event := "new-message";
                payload := NewMessage (JString Scenario.S1) user (lit "hola") |}])
    /\ pu_displayName user = lit "Alice (Anfitrión)"
    /\ Scenario.a1 ∈ recipients (ToRoom (stream_room Scenario.S1)) Scenario.alice_live.
Proof.
  destruct (new_message_envelope JSON_parse_rejecting Scenario.alice_live
              Scenario.a1 Scenario.alice_streaming
              (chat_data Scenario.S1 (lit "hola"))
              (chat_data Scenario.S1 (lit "hola")) [] Scenario.S1 (lit "hola"))
    as (user & Hstep & Hname & _ & Hsender).
  - reflexivity.
  - reflexivity.
  - reflexivity.
  - reflexivity.
  - vm_compute. discriminate.
  - reflexivity.
  - vm_compute. discriminate.
  - exists user. split; [exact Hstep|]. split; [exact Hname|].
    apply Hsender. vm_compute. apply list_elem_of_here.
Defined.

(** ** What handlers emit *)

Lemma emits_apply P a st : emits P a -> Forall P (snd (a st)).
Proof. intros H. apply H. Qed.

Lemma emits_seq P a b : emits P a -> emits P b -> emits P (a ;;; b).
Proof.
  intros Ha Hb st. rewrite seq_run. simpl. apply Forall_app. split; [apply Ha|apply Hb].
Qed.

Lemma emits_skip P : emits P skip.
Proof. intros st. constructor. Qed.

Lemma emits_modify P f : emits P (modify f).
Proof. intros st. constructor. Qed.

Lemma emits_emit (P : Emission -> Prop) t ev p :
  P {| target := t; event := ev; payload := p |} -> emits P (emit t ev p).
Proof. intros H st. by repeat constructor. Qed.

Lemma emits_foldr {A} P (f : A -> Action) (l : list A) :
  (forall x, emits P (f x)) ->
  emits P (foldr (fun x rest => f x ;;; rest) skip l).
Proof.
  intros Hf. induction l as [|x l IH]; simpl.
  - apply emits_skip.
  - by apply emits_seq.
Qed.

Lemma emits_with_parsed P parse data socket k :
  Forall P (snd (parseSocketData parse data socket)) ->
  (forall v, emits P (k v)) -> emits P (with_parsed parse data socket k).
Proof.
  intros Hp Hk st. unfold with_parsed.
  destruct (parseSocketData _ _ _) as [v o]. simpl in Hp.
  destruct (truthy v); [|done].
  specialize (Hk v st). destruct (k v st). simpl in *. apply Forall_app. by split.
Qed.

Lemma emits_notify (P : Emission -> Prop) streamUid action viewer :
  (forall e, event e = "viewer_update"%string -> P e) ->
  emits P (notifyStreamerAboutViewers streamUid action viewer).
Proof.
  intros HP st. eapply Forall_impl; [apply notify_output|]. auto.
Qed.

Lemma emits_schedule P : emits P scheduleBroadcastUpdate.
Proof. intros st. constructor. Qed.

Lemma emits_register P id u : emits P (registerActiveStreamer id u).
Proof. unfold registerActiveStreamer. destruct (as_string u); intros st; constructor. Qed.

Lemma emits_unregister P u : emits P (unregisterActiveStreamer u).
Proof. unfold unregisterActiveStreamer. destruct (as_string u); intros st; constructor. Qed.

(** Reduces a goal [emits P handler] to the messages the handler emits. *)
Ltac emit_step :=
  match goal with
  | |- emits _ skip => apply emits_skip
  | |- emits _ (modify _) => apply emits_modify
  | |- emits _ scheduleBroadcastUpdate => apply emits_schedule
  | |- emits _ (registerActiveStreamer _ _) => apply emits_register
  | |- emits _ (unregisterActiveStreamer _) => apply emits_unregister
  | |- emits _ (emit _ _ _) => apply emits_emit
  | |- emits _ (reply _ _) => apply emits_emit
  | |- emits _ (sendUserInfo _) => apply emits_emit
  | |- emits _ (notifyStreamerAboutViewers _ _ _) => apply emits_notify
  | |- emits _ (_ ;;; _) => apply emits_seq
  | |- emits _ (with_parsed _ _ _ _) => apply emits_with_parsed; [|intros ?]
  | |- emits _ (if ?c then _ else _) => destruct c eqn:?
  | |- emits _ (match ?c with _ => _ end) => destruct c eqn:?
  | |- emits _ (fun _ => _) =>
      let st := fresh "st" in intros st; cbv beta zeta
  | |- Forall _ (snd (match ?c with _ => _ end)) => destruct c eqn:?
  | |- Forall _ (snd (_, [])) => constructor
  | |- Forall ?P (snd (?a ?st)) => apply (emits_apply P a st)
  end.

Ltac emitting := repeat emit_step.

Section Replies.

Variable JSON_parse : jsstring -> option JsValue.

Lemma parse_error_to data socket :
  Forall (error_to (Socket.id socket)) (snd (parseSocketData JSON_parse data socket)).
Proof.
  unfold parseSocketData. destruct data; simpl; try constructor.
  destruct (JSON_parse s); [constructor|].
  destruct (JSON_parse (quote_bare_keys s)); by repeat constructor.
Qed.

Lemma dispatch_error_to socket name data :
  emits (error_to (Socket.id socket)) (dispatch JSON_parse socket name data).
Proof.
  unfold dispatch, handleWatchLive, handleStopWatching, handleStartStreaming,
    handleEndStreaming, handleSendMessage, handleTyping, sendInitialStreamsList,
    broadcastUpdatedStreamsList.
  emitting; try apply parse_error_to; try (intros e He Herr; congruence);
    try (intros Herr; first [reflexivity|discriminate Herr]).
Qed.

(** The kinds of message the events other than a client's message emit. *)
Lemma onConnection_events id user :
  emits (named ["user-info"; "streams-list"]%string) (onConnection id user).
Proof.
  unfold onConnection, sendInitialStreamsList. emitting; unfold named; simpl; auto.
Qed.

Lemma handleDisconnect_events socket :
  emits (named ["viewer_update"]%string) (handleDisconnect socket).
Proof.
  unfold handleDisconnect. emitting. all: intros e He; unfold named; simpl; auto.
Qed.

Lemma cleanup_events uid id :
  emits (named ["stream_ended"]%string) (cleanupOrphanedStream uid id).
Proof. unfold cleanupOrphanedStream. emitting. unfold named; simpl; auto. Qed.

Lemma check_events : emits (named ["stream_ended"]%string) checkDisconnectedStreamers.
Proof.
  intros st. unfold checkDisconnectedStreamers, sweep.
  apply (emits_foldr _ visitStreamer).
  intros entry st'. unfold visitStreamer. destruct (socket_lost _ _); [|constructor].
  apply cleanup_events.
Qed.

Lemma elapse_events ms : emits (named ["streams-list"]%string) (elapse ms).
Proof.
  intros st. unfold elapse. apply emits_seq; [|apply emits_modify].
  apply (emits_foldr _ (fun e => fire (fst e))).
  intros e. unfold fire, broadcastUpdatedStreamsList. emitting.
  unfold named; simpl; auto.
Qed.

Lemma step_other_events st ev st' out :
  step JSON_parse st ev = Some (st', out) ->
  (exists id name data, ev = Message id name data)
  \/ Forall (named ["user-info"; "streams-list"; "viewer_update"; "stream_ended"]%string)
       out.
Proof.
  intros Hstep.
  destruct ev as [id user|id name data|id|ms|]; simpl in Hstep; [|eauto|..]; right.
  - destruct (sockets st !! id); [done|]. apply result_eq in Hstep as [_ ->].
    eapply Forall_impl; [apply onConnection_events|].
    unfold named. simpl. intuition.
  - destruct (sockets st !! id) as [socket|]; [|done].
    apply result_eq in Hstep as [_ ->].
    eapply Forall_impl; [apply handleDisconnect_events|].
    unfold named. simpl. intuition.
  - apply result_eq in Hstep as [_ ->].
    eapply Forall_impl; [apply elapse_events|].
    unfold named. simpl. intuition.
  - apply result_eq in Hstep as [_ ->].
    eapply Forall_impl; [apply check_events|].
    unfold named. simpl. intuition.
Qed.

(** X1: an error is only ever sent as the reply to a client's own message:
    it goes to the socket that sent the message and to no one else, and no
    connection, disconnection, timer or reconciliation event produces one. *)
Theorem errors_go_to_the_sender (st st' : State) (ev : Event)
    (out : list Emission) (e : Emission) :
  reachable JSON_parse st ->
  step JSON_parse st ev = Some (st', out) ->
  e ∈ out -> event e = "error"%string ->
  exists id name data, ev = Message id name data /\ target e = ToSocket id.
Proof.
  intros Hr Hstep He Herr.
  destruct (step_other_events _ _ _ _ Hstep) as [(id & name & data & ->)|Hother].
  - exists id, name, data. split; [done|]. simpl in Hstep.
    destruct (sockets st !! id) as [socket|] eqn:Hs; [|done].
    apply result_eq in Hstep as [_ ->].
    pose proof (dispatch_error_to socket name data st) as H.
    rewrite Forall_forall in H. rewrite (H e He Herr).
    by destruct (reachable_sockets_ok _ _ Hr _ _ Hs) as [-> _].
  - rewrite Forall_forall in Hother. specialize (Hother e He).
    unfold named in Hother. rewrite Herr in Hother. simpl in Hother.
    intuition discriminate.
Qed.

(** *** Chat text *)






End Replies.

(** ** The stream table and the registry *)

Lemma row_evolves_refl r : row_evolves r r.
Proof. split; auto. Qed.

Lemma table_evolves_refl rows : Forall2 row_evolves rows rows.
Proof. induction rows; constructor; auto using row_evolves_refl. Qed.

Lemma row_evolves_trans r1 r2 r3 :
  row_evolves r1 r2 -> row_evolves r2 r3 -> row_evolves r1 r3.
Proof.
  intros [H1 H1'] [H2 H2']. split; [congruence|].
  destruct H2' as [->|[->| ->]]; auto.
Qed.

Lemma update_evolves k v tbl upd :
  v = lit "active" \/ v = lit "offline" ->
  Prisma.update k v tbl = Prisma.Ok upd -> Forall2 row_evolves tbl upd.
Proof.
  intros Hv Hupd. destruct k; try done. apply update_rows in Hupd as [-> _].
  induction tbl as [|r tbl IH]; simpl; constructor; auto.
  destruct (Prisma.has_uid s r); [|apply row_evolves_refl].
  split; [done|]. simpl. destruct Hv as [->| ->]; auto.
Qed.

Lemma table_evolves_update rows k v st upd :
  v = lit "active" \/ v = lit "offline" ->
  table_evolves rows st ->
  Prisma.update k v (table st) = Prisma.Ok upd ->
  Forall2 row_evolves rows upd.
Proof.
  intros Hv Hst Hupd. pose proof (update_evolves _ _ _ _ Hv Hupd) as H.
  unfold table_evolves in Hst. clear Hupd. revert upd H.
  induction Hst as [|r r' rows tbl Hr _ IH]; intros upd H; inversion H; subst;
    constructor; eauto using row_evolves_trans.
Qed.

Lemma evolves_uids rows tbl :
  Forall2 row_evolves rows tbl -> map Prisma.uid tbl = map Prisma.uid rows.
Proof.
  induction 1 as [|r r' rows tbl [Hb _] _ IH]; simpl; [done|].
  f_equal; [|done]. by injection Hb.
Qed.

Lemma recorded_uid k tbl :
  existsb (Prisma.has_uid k) tbl = true <-> k ∈ map Prisma.uid tbl.
Proof.
  rewrite existsb_exists, list_elem_of_fmap. split.
  - intros (r & Hr & Hk). exists r. apply eqb_true in Hk.
    by rewrite list_elem_of_In.
  - intros (r & -> & Hr). exists r. rewrite <- list_elem_of_In.
    split; [done|]. apply eqb_refl.
Qed.

Lemma registry_in_delete k (e : jsstring * StreamerInfo) m :
  e ∈ registry_delete k m -> e ∈ m.
Proof.
  unfold registry_delete. rewrite !list_elem_of_In, filter_In. tauto.
Qed.

Lemma registry_in_set k v (e : jsstring * StreamerInfo) m :
  e ∈ registry_set k v m -> e = (k, v) \/ e ∈ m.
Proof.
  induction m as [|[k0 v0] m IH]; simpl.
  - rewrite list_elem_of_singleton. auto.
  - destruct (eqb k0 k); rewrite !elem_of_cons; [tauto|].
    intros [->|H]; [auto|]. destruct (IH H); auto.
Qed.

Lemma streams_ok_ext rows st st' :
  table st' = table st -> activeStreamers st' = activeStreamers st ->
  streams_ok rows st -> streams_ok rows st'.
Proof. unfold streams_ok, table_evolves, registry_within. by intros -> ->. Qed.

Lemma streams_ok_unregister rows u :
  preserves (streams_ok rows) (unregisterActiveStreamer u).
Proof.
  unfold unregisterActiveStreamer. destruct (as_string u); [|apply preserves_skip].
  intros st [Ht Hr]. split; [done|].
  intros k info Hin. simpl in Hin. apply Hr. by eapply registry_in_delete.
Qed.

Lemma streams_ok_schedule rows : preserves (streams_ok rows) scheduleBroadcastUpdate.
Proof. intros st. by apply streams_ok_ext. Qed.

Ltac streams_frame :=
  let st := fresh "st" in
  let H := fresh "H" in
  intros st H; apply (streams_ok_ext _ st); [reflexivity|reflexivity|exact H].

Section Streams.

Variable JSON_parse : jsstring -> option JsValue.

Lemma dispatch_streams_ok rows socket name data :
  preserves (streams_ok rows) (dispatch JSON_parse socket name data).
Proof.
  unfold dispatch, handleWatchLive, handleStopWatching, handleStartStreaming,
    handleEndStreaming, handleSendMessage, handleTyping.
  preserve; try apply streams_ok_schedule; try apply streams_ok_unregister;
    try streams_frame.
  - (* start_streaming: the table *)
    intros st' [_ Hr]. split; [|exact Hr].
    destruct Hst as [Ht _]. unfold table_evolves. simpl.
    eapply table_evolves_update; [|exact Ht|eassumption]. auto.
  - (* start_streaming: the registry *)
    unfold registerActiveStreamer.
    destruct (as_string (field v "streamUid")) as [uid|] eqn:Hu; [|apply preserves_skip].
    intros st' [Ht Hr]. split; [done|].
    intros k info Hin. simpl in Hin. apply registry_in_set in Hin as [[= -> ->]|Hin];
      [|by apply Hr].
    split; [done|]. destruct Hst as [Ht0 _].
    rewrite <- (evolves_uids _ _ Ht0). apply recorded_uid.
    destruct (field v "streamUid"); try done. injection Hu as ->.
    match goal with
    | H : Prisma.update _ _ _ = Prisma.Ok _ |- _ => by apply update_rows in H as [_ ?]
    end.
  - (* end_streaming: the table *)
    intros st' [_ Hr]. split; [|exact Hr].
    destruct Hst as [Ht _]. unfold table_evolves. simpl.
    eapply table_evolves_update; [|exact Ht|eassumption]. auto.
Qed.

Lemma cleanup_streams_ok rows uid id :
  preserves (streams_ok rows) (cleanupOrphanedStream uid id).
Proof.
  unfold cleanupOrphanedStream. preserve; try apply streams_ok_schedule.
  - intros st [Ht Hr]. split; [done|].
    intros k info Hin. simpl in Hin. apply Hr. by eapply registry_in_delete.
  - intros st' [_ Hr]. split; [|exact Hr].
    destruct Hst as [Ht _]. unfold table_evolves. simpl.
    eapply table_evolves_update; [|exact Ht|eassumption]. auto.
Qed.

Lemma step_streams_ok rows st ev st' out :
  streams_ok rows st -> step JSON_parse st ev = Some (st', out) ->
  streams_ok rows st'.
Proof.
  intros Hok Hstep. destruct ev as [id user|id name data|id|ms|]; simpl in Hstep.
  - destruct (sockets st !! id); [done|]. apply result_eq in Hstep as [-> _].
    revert Hok. apply streams_ok_ext; reflexivity.
  - destruct (sockets st !! id) as [socket|]; [|done].
    apply result_eq in Hstep as [-> _]. by apply dispatch_streams_ok.
  - destruct (sockets st !! id) as [socket|]; [|done].
    apply result_eq in Hstep as [-> _].
    assert (H : preserves (streams_ok rows) (handleDisconnect socket)).
    { unfold handleDisconnect. preserve; try apply streams_ok_schedule;
        apply streams_ok_unregister. }
    apply H. revert Hok. apply streams_ok_ext; reflexivity.
  - apply result_eq in Hstep as [-> _].
    assert (H : preserves (streams_ok rows) (elapse ms)).
    { intros s Hs. unfold elapse. apply preserves_seq; [| |done].
      - apply (preserves_foldr _ (fun e => fire (fst e))).
        intros e. unfold fire. preserve. streams_frame.
      - apply preserves_modify. streams_frame. }
    by apply H.
  - apply result_eq in Hstep as [-> _].
    apply check_preserves; [|done]. apply cleanup_streams_ok.
Qed.

Lemma run_streams_ok rows evs : forall st st' out,
  streams_ok rows st -> run JSON_parse st evs = Some (st', out) ->
  streams_ok rows st'.
Proof.
  induction evs as [|ev evs IH]; simpl; intros st st' out Hok Hrun.
  - by injection Hrun as <- _.
  - destruct (step JSON_parse st ev) as [[st1 o1]|] eqn:Hstep; [|done].
    destruct (run JSON_parse st1 evs) as [[st2 o2]|] eqn:Hrest; [|done].
    injection Hrun as <- _. eapply IH; [|exact Hrest].
    by eapply step_streams_ok.
Qed.

(** X3: the service never adds, removes or reorders stream records, and
    never rewrites a record beyond its status: after any sequence of events
    the table holds the rows it started with, each with the status it had or
    with [active] or [offline]. *)
Theorem streams_only_change_status (rows : list Stream) (evs : list Event)
    (st : State) (out : list Emission) :
  run JSON_parse (initial rows) evs = Some (st, out) ->
  Forall2 row_evolves rows (table st).
Proof.
  intros Hrun. eapply (run_streams_ok rows) in Hrun as [H _]; [exact H|].
  split; [apply table_evolves_refl|]. intros k info Hin. by apply elem_of_nil in Hin.
Qed.

Lemma reachable_streams_ok st :
  reachable JSON_parse st -> exists rows, streams_ok rows st.
Proof.
  induction 1 as [rows|st ev st' out _ [rows IH] Hstep].
  - exists rows. split; [apply table_evolves_refl|].
    intros k info Hin. by apply elem_of_nil in Hin.
  - exists rows. by eapply step_streams_ok.
Qed.

(** X4: in every state the service reaches, each entry of the registry is
    filed under the stream id it carries and names a stream that has a
    record in the table. *)
Theorem registry_names_recorded_streams (st : State) (k : jsstring)
    (info : StreamerInfo) :
  reachable JSON_parse st ->
  registry_get k (activeStreamers st) = Some info ->
  tracked info = k /\ recorded k st.
Proof.
  intros Hr Hget. destruct (reachable_streams_ok _ Hr) as (rows & Ht & Hreg).
  apply registry_get_In in Hget. destruct (Hreg _ _ Hget) as [H1 H2].
  split; [done|]. apply recorded_uid. by rewrite (evolves_uids _ _ Ht).
Qed.

End Streams.

(** *** The properties above on the scenarios *)

(** Bob asks to start Alice's stream: the error goes to Bob's socket. *)
Lemma errors_go_to_the_sender_witness :
  exists id name data,
    Message Scenario.b1 "start_streaming" (stream_data Scenario.S1)
    = Message id name data
    /\ target (permission_error Scenario.b1) = ToSocket id.
Proof.
  apply (errors_go_to_the_sender JSON_parse_rejecting
           Scenario.alice_live Scenario.alice_live
           (Message Scenario.b1 "start_streaming" (stream_data Scenario.S1))
           [permission_error Scenario.b1] (permission_error Scenario.b1)).
  - apply after_reachable. vm_compute. eauto.
  - vm_compute. reflexivity.
  - apply list_elem_of_here.
  - reflexivity.
Defined.


Lemma streams_only_change_status_witness :
  Forall2 row_evolves Scenario.streams (table (Scenario.after alice_ended)).
Proof.
  apply (streams_only_change_status JSON_parse_rejecting Scenario.streams
           alice_ended (Scenario.after alice_ended) (outputs alice_ended)).
  vm_compute. reflexivity.
Defined.

Lemma registry_names_recorded_streams_witness :
  tracked {| socketId := Scenario.b1; tracked := Scenario.S2 |} = Scenario.S2
  /\ recorded Scenario.S2 (Scenario.after alice_ended).
Proof.
  apply (registry_names_recorded_streams JSON_parse_rejecting
           (Scenario.after alice_ended) Scenario.S2
           {| socketId := Scenario.b1; tracked := Scenario.S2 |}).
  - apply after_reachable. vm_compute. eauto.
  - vm_compute. reflexivity.
Defined.

(** ** Typing notices *)

Section Typing.

Variable JSON_parse : jsstring -> option JsValue.

(** X5: a typing notice changes nothing in the server, is relayed as at
    most one [user-typing] message, never comes back to the connection that
    typed, and is dropped without a reply when the payload is [null] or
    [undefined]. *)
Theorem typing_is_relayed_to_the_others (st : State) (id : jsstring)
    (socket : AuthenticatedSocket) (data : JsValue) :
  reachable JSON_parse st ->
  sockets st !! id = Some socket ->
  exists out,
    step JSON_parse st (Message id "typing" data) = Some (st, out)
    /\ (length out <= 1)%nat
    /\ (forall e, e ∈ out ->
          event e = "user-typing"%string /\ id ∉ recipients (target e) st)
    /\ (data = JNull \/ data = JUndefined -> out = []).
Proof.
  intros Hr Hs.
  destruct (reachable_sockets_ok _ _ Hr _ _ Hs) as [Hid _].
  simpl. rewrite Hs.
  change (dispatch JSON_parse socket "typing" data) with (handleTyping socket data).
  unfold handleTyping.
  destruct (get data (lit "streamUid")) as [streamUid|] eqn:Hget.
  - assert (Hnull : data = JNull \/ data = JUndefined -> False).
    { intros [-> | ->]; discriminate Hget. }
    destruct (get data (lit "isTyping")) as [isTyping|].
    + destruct (template_room streamUid) as [room|].
      * eexists. split; [reflexivity|]. split; [simpl; lia|]. split.
        -- intros e He. apply list_elem_of_singleton in He as ->.
           split; [reflexivity|]. simpl. rewrite Hid.
           intros Hin. by apply not_in_without in Hin.
        -- intros H. destruct (Hnull H).
      * exists []. split; [reflexivity|]. split; [simpl; lia|]. split; [|done].
        intros e He. by apply elem_of_nil in He.
    + exists []. split; [reflexivity|]. split; [simpl; lia|]. split; [|done].
      intros e He. by apply elem_of_nil in He.
  - exists []. split; [reflexivity|]. split; [simpl; lia|]. split; [|done].
    intros e He. by apply elem_of_nil in He.
Qed.

End Typing.

Lemma typing_is_relayed_to_the_others_witness :
  exists out,
    step JSON_parse_rejecting Scenario.vera_watching
      (Message Scenario.v1 "typing" (typing_data Scenario.S1 true))
    = Some (Scenario.vera_watching, out)
    /\ (length out <= 1)%nat
    /\ (forall e, e ∈ out ->
          event e = "user-typing"%string
          /\ Scenario.v1 ∉ recipients (target e) Scenario.vera_watching)
    /\ (typing_data Scenario.S1 true = JNull
        \/ typing_data Scenario.S1 true = JUndefined -> out = []).
Proof.
  apply (typing_is_relayed_to_the_others JSON_parse_rejecting
           Scenario.vera_watching Scenario.v1 Scenario.vera_viewing).
  - apply after_reachable. vm_compute. eauto.
  - vm_compute. reflexivity.
Defined.

(** ** What a connection without the streamer role can do *)

Section Roles.

Variable JSON_parse : jsstring -> option JsValue.




End Roles.


(** ** Rooms *)

Lemma without_subset (id i : jsstring) (l : list jsstring) : i ∈ without id l -> i ∈ l.
Proof. unfold without. rewrite !list_elem_of_In, filter_In. tauto. Qed.

Lemma without_NoDup (id : jsstring) (l : list jsstring) : NoDup l -> NoDup (without id l).
Proof.
  induction 1 as [|x l Hx _ IH]; simpl; [constructor|].
  destruct (negb (eqb x id)); [|done]. constructor; [|done].
  intros Hin. by apply without_subset in Hin.
Qed.

Lemma rooms_ok_ext st st' :
  rooms st' = rooms st ->
  (forall id, is_Some (sockets st !! id) -> is_Some (sockets st' !! id)) ->
  rooms_ok st -> rooms_ok st'.
Proof.
  intros Hr Hs Hok room ids Hids. rewrite Hr in Hids.
  destruct (Hok room ids Hids) as [Hnd Hopen]. split; [done|]. auto.
Qed.

Lemma rooms_ok_for_ext socket st st' :
  rooms st' = rooms st ->
  (forall id, is_Some (sockets st !! id) -> is_Some (sockets st' !! id)) ->
  rooms_ok_for socket st -> rooms_ok_for socket st'.
Proof.
  intros Hr Hs [Hopen Hok]. split; [by apply Hs|by apply (rooms_ok_ext st)].
Qed.

Lemma members_ok st room :
  rooms_ok st ->
  NoDup (members room st)
  /\ forall id, id ∈ members room st -> is_Some (sockets st !! id).
Proof.
  intros Hok. unfold members. destruct (rooms st !! room) as [ids|] eqn:Hids; simpl.
  - by apply Hok in Hids.
  - split; [constructor|]. intros id Hin. by apply elem_of_nil in Hin.
Qed.

Lemma rooms_ok_join socket room st :
  rooms_ok_for socket st -> rooms_ok_for socket (socket_join (Socket.id socket) room st).
Proof.
  intros [Hopen Hok]. split; [done|].
  intros r ids Hids. unfold socket_join in Hids. simpl in Hids.
  destruct (bool_decide (Socket.id socket ∈ members room st)) eqn:Hin.
  - by apply Hok in Hids.
  - apply bool_decide_eq_false in Hin.
    destruct (decide (r = room)) as [->|Hne].
    + rewrite lookup_insert_eq in Hids. injection Hids as <-.
      destruct (members_ok st room Hok) as [Hnd Hmem]. split.
      * apply NoDup_app. split; [done|]. split; [|apply NoDup_singleton].
        intros i Hi Hi'. apply list_elem_of_singleton in Hi' as ->. done.
      * intros i Hi. apply elem_of_app in Hi as [Hi|Hi]; [by apply Hmem|].
        by apply list_elem_of_singleton in Hi as ->.
    + rewrite lookup_insert_ne in Hids by done. by apply Hok in Hids.
Qed.

Lemma rooms_ok_leave id room st : rooms_ok st -> rooms_ok (socket_leave id room st).
Proof.
  intros Hok r ids Hids. unfold socket_leave in Hids. simpl in Hids.
  destruct (decide (r = room)) as [->|Hne].
  - rewrite lookup_insert_eq in Hids. injection Hids as <-.
    destruct (members_ok st room Hok) as [Hnd Hmem]. split.
    + by apply without_NoDup.
    + intros i Hi. apply Hmem. by eapply without_subset.
  - rewrite lookup_insert_ne in Hids by done. by apply Hok in Hids.
Qed.

Lemma rooms_ok_close id st : rooms_ok st -> rooms_ok (socket_close id st).
Proof.
  intros Hok r ids Hids. unfold socket_close in Hids. simpl in Hids.
  rewrite lookup_fmap in Hids.
  destruct (rooms st !! r) as [ids0|] eqn:Hr; [|done].
  injection Hids as <-. destruct (Hok r ids0 Hr) as [Hnd Hmem]. split.
  - by apply without_NoDup.
  - intros i Hi. pose proof (not_in_without _ _ _ Hi) as Hne.
    apply without_subset in Hi. simpl.
    rewrite lookup_delete_ne by done. by apply Hmem.
Qed.

Lemma open_after_update id f st i :
  is_Some (sockets st !! i) -> is_Some (sockets (update_socket id f st) !! i).
Proof.
  intros [s Hs]. simpl. destruct (decide (id = i)) as [->|Hne].
  - rewrite lookup_alter_eq, Hs. by eexists.
  - rewrite lookup_alter_ne by done. by eexists.
Qed.

Ltac rooms_frame :=
  let st := fresh "st" in
  let H := fresh "H" in
  intros st H;
  first
    [ by apply rooms_ok_join
    | by destruct H; split; [|apply rooms_ok_leave]
    | apply (rooms_ok_for_ext _ st);
        [reflexivity|intros ?; apply open_after_update|exact H]
    | apply (rooms_ok_for_ext _ st); [reflexivity|by intros ?|exact H] ].

Lemma rooms_ok_schedule socket : preserves (rooms_ok_for socket) scheduleBroadcastUpdate.
Proof. intros st. by apply rooms_ok_for_ext. Qed.

Lemma rooms_ok_unregister socket u :
  preserves (rooms_ok_for socket) (unregisterActiveStreamer u).
Proof.
  unfold unregisterActiveStreamer. destruct (as_string u); [|apply preserves_skip].
  intros st. by apply rooms_ok_for_ext.
Qed.

Lemma rooms_ok_register socket id u :
  preserves (rooms_ok_for socket) (registerActiveStreamer id u).
Proof.
  unfold registerActiveStreamer. destruct (as_string u); [|apply preserves_skip].
  intros st. by apply rooms_ok_for_ext.
Qed.

Section Rooms.

Variable JSON_parse : jsstring -> option JsValue.

Lemma dispatch_rooms_ok socket name data :
  preserves (rooms_ok_for socket) (dispatch JSON_parse socket name data).
Proof.
  unfold dispatch, handleWatchLive, handleStopWatching, handleStartStreaming,
    handleEndStreaming, handleSendMessage, handleTyping.
  preserve; try apply rooms_ok_schedule; try apply rooms_ok_unregister;
    try apply rooms_ok_register; rooms_frame.
Qed.

Lemma step_rooms_ok st ev st' out :
  sockets_ok st -> rooms_ok st ->
  step JSON_parse st ev = Some (st', out) -> rooms_ok st'.
Proof.
  intros Hsok Hok Hstep.
  assert (Hsame : forall a,
            (forall m, preserves (has sockets m) a) ->
            (forall m, preserves (has rooms m) a) ->
            forall s, rooms_ok s -> rooms_ok (fst (a s))).
  { intros a Hs Hr s H. apply (rooms_ok_ext s); [|intros id|done].
    - apply (Hr (rooms s) s eq_refl).
    - by rewrite (Hs (sockets s) s eq_refl). }
  destruct ev as [id user|id name data|id|ms|]; simpl in Hstep.
  - destruct (sockets st !! id) eqn:Hs; [done|]. apply result_eq in Hstep as [-> _].
    unfold onConnection. rewrite !seq_run. simpl.
    set (st1 := with_sockets _ st).
    assert (H1 : rooms_ok_for (Socket.fresh id user) st1).
    { split; [simpl; rewrite lookup_insert_eq; by eexists|].
      apply (rooms_ok_ext st); [done| |done].
      intros i [s Hi]. simpl. destruct (decide (id = i)) as [->|Hne].
      - rewrite lookup_insert_eq. by eexists.
      - rewrite lookup_insert_ne by done. by eexists. }
    by apply (rooms_ok_join (Socket.fresh id user) id) in H1 as [_ H1].
  - destruct (sockets st !! id) as [socket|] eqn:Hs; [|done].
    apply result_eq in Hstep as [-> _].
    destruct (Hsok _ _ Hs) as [Hid _].
    apply (dispatch_rooms_ok socket name data st). split; [|done].
    rewrite Hid, Hs. by eexists.
  - destruct (sockets st !! id) as [socket|]; [|done].
    apply result_eq in Hstep as [-> _].
    apply Hsame; [apply handleDisconnect_sockets| |by apply rooms_ok_close].
    intros m. unfold handleDisconnect.
    preserve; try (by apply schedule_keeps); try (by apply unregister_keeps).
  - apply result_eq in Hstep as [-> _].
    apply Hsame; [apply elapse_sockets| |done].
    intros m s Hm. unfold elapse. apply preserves_seq; [| |done].
    + apply (preserves_foldr _ (fun e => fire (fst e))).
      intros e. unfold fire. preserve. by intros ? <-.
    + apply preserves_modify. by intros ? <-.
  - apply result_eq in Hstep as [-> _].
    apply Hsame; [apply check_sockets| |done].
    intros m. apply check_preserves. intros uid i. unfold cleanupOrphanedStream.
    preserve; try (by apply schedule_keeps); by intros ? <-.
Qed.

(** X7: in every state the service reaches, a room lists no connection
    twice and lists only connections that are open, so a message to a room
    reaches each of its members and each one once. *)
Theorem rooms_hold_open_connections (st : State) (room : jsstring) :
  reachable JSON_parse st ->
  NoDup (members room st)
  /\ (forall id, id ∈ members room st -> is_Some (sockets st !! id))
  /\ recipients (ToRoom room) st = members room st.
Proof.
  intros Hr.
  assert (Hok : rooms_ok st).
  { induction Hr as [rows|st ev st' out Hr IH Hstep].
    - intros r ids Hids. simpl in Hids. by rewrite lookup_empty in Hids.
    - eapply step_rooms_ok; [|exact IH|exact Hstep].
      by eapply reachable_sockets_ok. }
  destruct (members_ok st room Hok) as [Hnd Hmem]. split; [done|]. split; [done|].
  simpl. clear Hnd. induction (members room st) as [|i l IH]; simpl; [done|].
  assert (Hi : is_open st i = true).
  { apply bool_decide_eq_true. apply Hmem. apply list_elem_of_here. }
  rewrite Hi. f_equal. apply IH. intros id Hid. apply Hmem. by apply list_elem_of_further.
Qed.

End Rooms.

Lemma rooms_hold_open_connections_witness :
  NoDup (members (stream_room Scenario.S1) Scenario.vera_switched)
  /\ (forall id, id ∈ members (stream_room Scenario.S1) Scenario.vera_switched ->
        is_Some (sockets Scenario.vera_switched !! id))
  /\ recipients (ToRoom (stream_room Scenario.S1)) Scenario.vera_switched
     = members (stream_room Scenario.S1) Scenario.vera_switched.
Proof.
  apply (rooms_hold_open_connections JSON_parse_rejecting).
  apply after_reachable. vm_compute. eauto.
Defined.

(** ** Reconciliation *)

Lemma filter_filter {A} (f g : A -> bool) (l : list A) :
  List.filter f (List.filter g l) = List.filter (fun a => g a && f a) l.
Proof.
  induction l as [|a l IH]; simpl; [done|].
  destruct (g a); simpl; [|done]. destruct (f a); by rewrite IH.
Qed.

Lemma filter_all {A} (l : list A) : List.filter (fun _ => true) l = l.
Proof. induction l as [|a l IH]; simpl; by rewrite ?IH. Qed.

Lemma lost_entry_ext st st' e :
  sockets st' = sockets st -> lost_entry st' e = lost_entry st e.
Proof. apply socket_lost_ext. Qed.

Lemma swept_ext st st' entries e :
  sockets st' = sockets st -> swept st' entries e = swept st entries e.
Proof.
  intros Hs. unfold swept. induction entries as [|x entries IH]; simpl; [done|].
  by rewrite IH, (lost_entry_ext st st' x Hs).
Qed.

Lemma cleanup_result uid id st :
  recorded uid st ->
  activeStreamers (fst (cleanupOrphanedStream uid id st))
  = registry_delete uid (activeStreamers st)
  /\ snd (cleanupOrphanedStream uid id st) = [tcp_ended uid].
Proof.
  intros Hrec. unfold cleanupOrphanedStream. rewrite seq_run. cbn [fst snd modify].
  cbn [table with_activeStreamers].
  destruct (Prisma.update (JString uid) (lit "offline") (table st)) as [upd|] eqn:Hupd.
  - rewrite !seq_run. unfold tcp_ended, scheduleBroadcastUpdate, modify, emit.
    cbn [fst snd app]. split; reflexivity.
  - simpl in Hupd. unfold recorded in Hrec. by rewrite Hrec in Hupd.
Qed.

Lemma sweep_result entries : forall st,
  Forall (fun e => recorded (fst e) st) entries ->
  activeStreamers (fst (sweep entries st))
  = List.filter (fun e => negb (swept st entries e)) (activeStreamers st)
  /\ snd (sweep entries st)
     = map (fun e => tcp_ended (fst e)) (List.filter (lost_entry st) entries).
Proof.
  induction entries as [|x entries IH]; intros st Hrec.
  - simpl. by rewrite filter_all.
  - change (sweep (x :: entries)) with (visitStreamer x ;;; sweep entries).
    rewrite seq_run. cbn [fst snd].
    apply Forall_cons in Hrec as [Hx Hrec].
    assert (Hs : sockets (fst (visitStreamer x st)) = sockets st).
    { apply (visit_preserves (has sockets (sockets st))); [|done].
      intros k id. apply cleanup_sockets. }
    destruct (IH (fst (visitStreamer x st))) as [Hreg Hout].
    { eapply Forall_impl; [exact Hrec|]. intros e He. cbv beta in *.
      apply visit_preserves; [|done]. intros k id. apply cleanup_recorded. }
    rewrite Hreg, Hout. clear Hreg Hout IH.
    rewrite (filter_ext _ _ (fun e => lost_entry_ext st _ e Hs)).
    rewrite (filter_ext _ _
               (fun e => f_equal negb (swept_ext st _ entries e Hs))).
    change (List.filter (lost_entry st) (x :: entries))
      with (if lost_entry st x then x :: List.filter (lost_entry st) entries
            else List.filter (lost_entry st) entries).
    rewrite (filter_ext (fun e => negb (swept st (x :: entries) e))
               (fun e => negb (eqb (fst e) (fst x) && lost_entry st x
                               || swept st entries e)) (fun e => eq_refl)).
    unfold visitStreamer.
    change (socket_lost (socketId (snd x)) st) with (lost_entry st x).
    destruct (lost_entry st x) eqn:Hlost.
    + destruct (cleanup_result (fst x) (socketId (snd x)) st Hx) as [-> ->].
      split; [|done]. unfold registry_delete. rewrite filter_filter.
      apply filter_ext. intros e. by rewrite andb_true_r, negb_orb.
    + split; [|done]. cbn [fst]. apply filter_ext. intros e.
      by rewrite andb_false_r.
Qed.

Lemma same_key_same_entry (m : list (jsstring * StreamerInfo)) x e :
  NoDup (map fst m) -> x ∈ m -> e ∈ m -> fst x = fst e -> x = e.
Proof.
  induction m as [|y m IH]; simpl; intros Hnd Hx He Hk.
  - by apply elem_of_nil in Hx.
  - apply NoDup_cons in Hnd as [Hy Hnd].
    apply elem_of_cons in Hx as [->|Hx]; apply elem_of_cons in He as [->|He];
      [done| | |by apply IH].
    + exfalso. apply Hy. rewrite Hk. by apply (list_elem_of_fmap_2 fst).
    + exfalso. apply Hy. rewrite <- Hk. by apply (list_elem_of_fmap_2 fst).
Qed.

Lemma swept_own st (m : list (jsstring * StreamerInfo)) e :
  NoDup (map fst m) -> e ∈ m -> swept st m e = lost_entry st e.
Proof.
  intros Hnd He. unfold swept. destruct (lost_entry st e) eqn:Hlost.
  - apply existsb_exists. exists e. rewrite <- list_elem_of_In. split; [done|].
    by rewrite eqb_refl, Hlost.
  - apply not_true_is_false. intros H.
    apply existsb_exists in H as (x & Hx & H). rewrite <- list_elem_of_In in Hx.
    apply andb_true_iff in H as [Hk Hx']. apply eqb_true in Hk.
    assert (x = e) as -> by by apply (same_key_same_entry m).
    congruence.
Qed.

Section Reconciliation.

Variable JSON_parse : jsstring -> option JsValue.

(** X8: in a state the service has reached, a reconciliation removes from
    the registry exactly the entries whose socket is gone or not connected,
    announces each of these streams once, in registry order, with a
    [stream_ended] message to everyone carrying the reason
    [tcp_disconnection], leaves their records offline, and touches no
    connection; every entry that remains names a connected socket. *)
Theorem reconcile_drops_lost_streamers (st st' : State) (out : list Emission) :
  reachable JSON_parse st ->
  step JSON_parse st Reconcile = Some (st', out) ->
  activeStreamers st'
  = List.filter (fun e => negb (lost_entry st e)) (activeStreamers st)
  /\ out = map (fun e => tcp_ended (fst e))
             (List.filter (lost_entry st) (activeStreamers st))
  /\ sockets st' = sockets st
  /\ (forall e, e ∈ activeStreamers st ->
        lost_entry st e = true -> offline (fst e) st')
  /\ (forall e, e ∈ activeStreamers st' -> lost_entry st' e = false).
Proof.
  intros Hr Hstep. simpl in Hstep. apply result_eq in Hstep as [-> ->].
  unfold checkDisconnectedStreamers.
  destruct (reachable_timers_registry _ _ Hr) as [_ Hnd].
  assert (Hrec : Forall (fun e => recorded (fst e) st) (activeStreamers st)).
  { apply Forall_forall. intros [k info] He.
    destruct (reachable_streams_ok _ _ Hr) as (rows & Ht & Hreg).
    destruct (Hreg _ _ He) as [_ Hk]. apply recorded_uid.
    by rewrite (evolves_uids _ _ Ht). }
  destruct (sweep_result (activeStreamers st) st Hrec) as [Hreg Hout].
  assert (Hs : sockets (fst (sweep (activeStreamers st) st)) = sockets st).
  { apply (sweep_preserves (has sockets (sockets st))); [|done].
    intros k id. apply cleanup_sockets. }
  assert (Hkept : activeStreamers (fst (sweep (activeStreamers st) st))
                  = List.filter (fun e => negb (lost_entry st e)) (activeStreamers st)).
  { rewrite Hreg. apply filter_ext_in. intros e He.
    rewrite <- list_elem_of_In in He. by rewrite swept_own. }
  split; [done|]. split; [done|]. split; [done|]. split.
  - intros [k info] He Hlost.
    apply (sweep_cleans k info (activeStreamers st) st He Hlost).
    rewrite Forall_forall in Hrec. apply (Hrec _ He).
  - intros e He. rewrite Hkept in He.
    rewrite list_elem_of_In, filter_In in He. destruct He as [_ He].
    rewrite (lost_entry_ext st _ e Hs). by apply negb_true_iff.
Qed.

End Reconciliation.

(** Alice's socket dropped while the registry still tracked it for [S1]. *)
Lemma reconcile_drops_lost_streamers_witness :
  let st := Scenario.alice_dropped in
  let st' := next st Reconcile in
  let out := Scenario.output st Reconcile in
  activeStreamers st'
  = List.filter (fun e => negb (lost_entry st e)) (activeStreamers st)
  /\ out = map (fun e => tcp_ended (fst e))
             (List.filter (lost_entry st) (activeStreamers st))
  /\ sockets st' = sockets st
  /\ (forall e, e ∈ activeStreamers st ->
        lost_entry st e = true -> offline (fst e) st')
  /\ (forall e, e ∈ activeStreamers st' -> lost_entry st' e = false).
Proof.
  intros st st' out.
  apply (reconcile_drops_lost_streamers JSON_parse_rejecting st st' out).
  - apply after_reachable. vm_compute. eauto.
  - vm_compute. reflexivity.
Defined.

(** ** Pending broadcasts *)

Lemma one_timer_ext st st' :
  timers st' = timers st -> broadcastTimeout st' = broadcastTimeout st ->
  one_timer st -> one_timer st'.
Proof.
  intros Ht Hb [Hok Hlen]. split; [by apply (timers_ok_ext st)|by rewrite Ht].
Qed.

Lemma schedule_one_timer : preserves one_timer scheduleBroadcastUpdate.
Proof.
  intros st [Hok Hlen]. split; [by apply schedule_timers_ok|].
  by rewrite (schedule_arms st Hok).
Qed.

Lemma filter_shorter {A} (f : A -> bool) (l : list A) :
  (length (List.filter f l) <= length l)%nat.
Proof. induction l as [|a l IH]; simpl; [done|]. destruct (f a); simpl; lia. Qed.

Lemma fire_one_timer h : preserves one_timer (fire h).
Proof.
  intros st [Hok Hlen]. split; [by apply fire_timers_ok|].
  unfold fire. rewrite seq_run. cbn [fst snd modify].
  change (armed (timers (fst (broadcastUpdatedStreamsList
            (with_timeout (broadcastTimeout st) (clearTimeout h (timers st)) st)))))
    with (List.filter (fun e => negb (fst e =? h)) (armed (timers st))).
  pose proof (filter_shorter (fun e : N * N => negb (fst e =? h)) (armed (timers st))).
  lia.
Qed.

Lemma elapse_one_timer ms : preserves one_timer (elapse ms).
Proof.
  intros st H. unfold elapse. apply preserves_seq; [| |done].
  - apply (preserves_foldr _ (fun e => fire (fst e))). intros e. apply fire_one_timer.
  - apply preserves_modify. intros s [[Ha Hb] Hlen]. by split.
Qed.

Ltac timer_frame :=
  first
    [ apply schedule_one_timer
    | match goal with
      | |- preserves _ (registerActiveStreamer _ ?u) =>
          unfold registerActiveStreamer; destruct (as_string u);
          [|apply preserves_skip]
      | |- preserves _ (unregisterActiveStreamer ?u) =>
          unfold unregisterActiveStreamer; destruct (as_string u);
          [|apply preserves_skip]
      | _ => idtac
      end;
      let st := fresh "st" in
      let H := fresh "H" in
      intros st H; apply (one_timer_ext st); [| |exact H];
      first [ reflexivity
            | apply (proj1 (socket_join_timers _ _ _))
            | apply (proj2 (socket_join_timers _ _ _)) ] ].

Lemma fire_all_length (due : list (N * N)) : forall st,
  length (snd (foldr (fun e rest => fire (fst e) ;;; rest) skip due st)) = length due.
Proof.
  induction due as [|e due IH]; intros st; simpl; [done|].
  rewrite seq_run. cbn [snd]. rewrite length_app, IH.
  unfold fire. by rewrite seq_run.
Qed.

Lemma broadcasts_none out : Forall not_broadcast out -> broadcasts out = [].
Proof.
  induction 1 as [|e out He _ IH]; [done|].
  unfold broadcasts in *. simpl. rewrite IH. unfold is_event.
  destruct (String.eqb (event e) "streams-list") eqn:Hev; [|done].
  apply String.eqb_eq in Hev. specialize (He Hev). by destruct (target e).
Qed.

Section Broadcasts.

Variable JSON_parse : jsstring -> option JsValue.

Lemma dispatch_one_timer socket name data :
  preserves one_timer (dispatch JSON_parse socket name data).
Proof.
  unfold dispatch, handleWatchLive, handleStopWatching, handleStartStreaming,
    handleEndStreaming, handleSendMessage, handleTyping.
  preserve; timer_frame.
Qed.

Lemma step_one_timer st ev st' out :
  one_timer st -> step JSON_parse st ev = Some (st', out) -> one_timer st'.
Proof.
  intros Hok Hstep. destruct ev as [id user|id name data|id|ms|]; simpl in Hstep.
  - destruct (sockets st !! id); [done|]. apply result_eq in Hstep as [-> _].
    revert Hok. apply one_timer_ext; reflexivity.
  - destruct (sockets st !! id) as [socket|]; [|done].
    apply result_eq in Hstep as [-> _]. by apply dispatch_one_timer.
  - destruct (sockets st !! id) as [socket|]; [|done].
    apply result_eq in Hstep as [-> _].
    assert (H : preserves one_timer (handleDisconnect socket)).
    { unfold handleDisconnect. preserve; timer_frame. }
    apply H. revert Hok. apply one_timer_ext; reflexivity.
  - apply result_eq in Hstep as [-> _]. by apply elapse_one_timer.
  - apply result_eq in Hstep as [-> _].
    apply check_preserves; [|done]. intros uid i.
    unfold cleanupOrphanedStream. preserve; timer_frame.
Qed.

Lemma reachable_one_timer st : reachable JSON_parse st -> one_timer st.
Proof.
  induction 1 as [rows|st ev st' out _ IH Hstep].
  - split; [split|]; simpl; [constructor|done|lia].
  - by eapply step_one_timer.
Qed.

Lemma dispatch_not_broadcast socket name data :
  emits not_broadcast (dispatch JSON_parse socket name data).
Proof.
  assert (Hparse : Forall not_broadcast
                     (snd (parseSocketData JSON_parse data socket))).
  { eapply Forall_impl; [apply (parse_output_errors JSON_parse)|].
    intros e He H. congruence. }
  unfold dispatch, handleWatchLive, handleStopWatching, handleStartStreaming,
    handleEndStreaming, handleSendMessage, handleTyping, sendInitialStreamsList.
  emitting; try exact Hparse; try (intros e He H; congruence);
    try (intros H; first [discriminate H|done]).
Qed.

(** X9: broadcasts of the streams list never pile up.  In every state the
    service reaches at most one timeout is pending; an event that lets time
    pass sends at most one [streams-list] to everyone, and no other event
    sends one. *)
Theorem one_broadcast_per_event (st st' : State) (ev : Event)
    (out : list Emission) :
  reachable JSON_parse st ->
  step JSON_parse st ev = Some (st', out) ->
  (length (armed (timers st)) <= 1)%nat
  /\ (length (broadcasts out) <= 1)%nat
  /\ (broadcasts out <> [] -> exists ms, ev = Elapse ms).
Proof.
  intros Hr Hstep. destruct (reachable_one_timer _ Hr) as [_ Hlen].
  split; [done|].
  assert (Hnone : Forall not_broadcast out ->
                  (length (broadcasts out) <= 1)%nat
                  /\ (broadcasts out <> [] -> exists ms, ev = Elapse ms)).
  { intros H. rewrite (broadcasts_none _ H). split; [simpl; lia|done]. }
  destruct ev as [id user|id name data|id|ms|]; simpl in Hstep.
  - destruct (sockets st !! id); [done|]. apply result_eq in Hstep as [_ ->].
    apply Hnone. apply (emits_apply not_broadcast (onConnection id user)).
    unfold onConnection, sendInitialStreamsList.
    emitting; intros H; first [discriminate H|done].
  - destruct (sockets st !! id) as [socket|]; [|done].
    apply result_eq in Hstep as [_ ->].
    apply Hnone. apply dispatch_not_broadcast.
  - destruct (sockets st !! id) as [socket|]; [|done].
    apply result_eq in Hstep as [_ ->].
    apply Hnone. apply (emits_apply not_broadcast (handleDisconnect socket)).
    unfold handleDisconnect. emitting. all: intros e He H; congruence.
  - apply result_eq in Hstep as [_ ->]. split; [|by eauto].
    etransitivity; [apply filter_shorter|].
    unfold elapse. rewrite seq_run. cbn [snd modify]. rewrite app_nil_r.
    rewrite fire_all_length.
    etransitivity; [apply filter_shorter|done].
  - apply result_eq in Hstep as [_ ->].
    apply Hnone. eapply Forall_impl; [apply (check_events st)|].
    intros e He H. unfold named in He. rewrite H in He. simpl in He.
    intuition discriminate.
Qed.

(** X10: [destroy] cancels the pending broadcast and empties the registry
    and does nothing else: no connection is closed, no room or stream
    record changes, no message goes out.  After it, in a state the service
    had reached, the passing of time sends nothing and a reconciliation
    finds nothing to do. *)
Theorem destroy_releases_timer_and_registry (st : State) :
  reachable JSON_parse st ->
  snd (destroy st) = []
  /\ sockets (fst (destroy st)) = sockets st
  /\ rooms (fst (destroy st)) = rooms st
  /\ table (fst (destroy st)) = table st
  /\ activeStreamers (fst (destroy st)) = []
  /\ broadcastTimeout (fst (destroy st)) = None
  /\ armed (timers (fst (destroy st))) = []
  /\ (forall ms, snd (elapse ms (fst (destroy st))) = [])
  /\ checkDisconnectedStreamers (fst (destroy st)) = (fst (destroy st), []).
Proof.
  intros Hr. destruct (reachable_timers_registry _ _ Hr) as [[Ha _] _].
  assert (Harmed : armed (timers (fst (destroy st))) = []).
  { unfold destroy. rewrite seq_run. cbn [fst snd modify].
    destruct (broadcastTimeout st) as [h|]; simpl.
    - by apply clear_all.
    - destruct (armed (timers st)); [done|]. by apply Forall_cons in Ha as [? _]. }
  unfold destroy in *. rewrite seq_run in *. cbn [fst snd modify app] in *.
  split; [done|].
  split; [by destruct (broadcastTimeout st)|].
  split; [by destruct (broadcastTimeout st)|].
  split; [by destruct (broadcastTimeout st)|].
  split; [done|].
  split; [by destruct (broadcastTimeout st) eqn:Hb|].
  split; [done|].
  split; [|done].
  intros ms. by apply elapse_nothing_armed.
Qed.

End Broadcasts.

(** A broadcast is pending in [alice_live]; 100 ms later it goes out. *)
Lemma one_broadcast_per_event_witness :
  (length (armed (timers Scenario.alice_live)) <= 1)%nat
  /\ (length (broadcasts (Scenario.output Scenario.alice_live (Elapse 100))) <= 1)%nat
  /\ (broadcasts (Scenario.output Scenario.alice_live (Elapse 100)) <> [] ->
      exists ms, Elapse 100 = Elapse ms).
Proof.
  apply (one_broadcast_per_event JSON_parse_rejecting Scenario.alice_live
           (next Scenario.alice_live (Elapse 100))).
  - apply after_reachable. vm_compute. eauto.
  - vm_compute. reflexivity.
Defined.

Lemma destroy_releases_timer_and_registry_witness :
  let st := Scenario.alice_live in
  snd (destroy st) = []
  /\ sockets (fst (destroy st)) = sockets st
  /\ rooms (fst (destroy st)) = rooms st
  /\ table (fst (destroy st)) = table st
  /\ activeStreamers (fst (destroy st)) = []
  /\ broadcastTimeout (fst (destroy st)) = None
  /\ armed (timers (fst (destroy st))) = []
  /\ (forall ms, snd (elapse ms (fst (destroy st))) = [])
  /\ checkDisconnectedStreamers (fst (destroy st)) = (fst (destroy st), []).
Proof.
  apply (destroy_releases_timer_and_registry JSON_parse_rejecting).
  apply after_reachable. vm_compute. eauto.
Defined.

(** ** The streams list *)

Lemma snapshot_lists_active socket st :
  Forall (lists_active (table st)) (snd (sendInitialStreamsList socket st)).
Proof.
  repeat constructor. intros _. eexists _, _. split; [reflexivity|].
  rewrite map_map. simpl. apply map_id.
Qed.

Lemma broadcast_lists_active st :
  Forall (lists_active (table st)) (snd (broadcastUpdatedStreamsList st)).
Proof.
  repeat constructor. intros _. eexists _, _. split; [reflexivity|].
  rewrite map_map. simpl. apply map_id.
Qed.

Lemma fire_all_lists_active (due : list (N * N)) : forall st,
  Forall (lists_active (table st))
    (snd (foldr (fun e rest => fire (fst e) ;;; rest) skip due st)).
Proof.
  induction due as [|e due IH]; intros st; simpl; [constructor|].
  rewrite seq_run. cbn [snd]. apply Forall_app. split.
  - unfold fire. rewrite seq_run. cbn [fst snd modify app].
    apply (broadcast_lists_active (with_timeout _ _ st)).
  - apply (IH (fst (fire (fst e) st))).
Qed.

Section StreamsList.

Variable JSON_parse : jsstring -> option JsValue.

Lemma dispatch_other_events socket name data :
  String.eqb name "get_streams" = false ->
  emits (named ["error"; "viewer_update"; "new-message"; "user-typing";
                "stream_started"; "stream_ended"]%string)
    (dispatch JSON_parse socket name data).
Proof.
  intros Hname.
  assert (Hparse : Forall (named ["error"; "viewer_update"; "new-message";
                                  "user-typing"; "stream_started";
                                  "stream_ended"]%string)
                     (snd (parseSocketData JSON_parse data socket))).
  { eapply Forall_impl; [apply (parse_output_errors JSON_parse)|].
    intros e He. unfold named. rewrite He. simpl. auto. }
  unfold dispatch, handleWatchLive, handleStopWatching, handleStartStreaming,
    handleEndStreaming, handleSendMessage, handleTyping.
  rewrite Hname. cbv iota.
  emitting; try exact Hparse;
    try (intros e He; unfold named; rewrite He); unfold named; simpl; auto 10.
Qed.

(** X11: a [streams-list] message, whether sent to one connection on
    arrival or on request or broadcast to everyone after the debounce
    delay, lists exactly the records that are active at that moment, in
    table order, and its count is the number of records listed; the event
    that produces it leaves the stream table as it is. *)
Theorem streams_list_shows_active_streams (st st' : State) (ev : Event)
    (out : list Emission) (e : Emission) :
  step JSON_parse st ev = Some (st', out) ->
  e ∈ out -> event e = "streams-list"%string ->
  table st' = table st
  /\ exists views live,
       payload e = StreamsList views (length views) live
       /\ map sv_stream views = Prisma.findMany (lit "active") (table st).
Proof.
  intros Hstep He Hev.
  assert (Hlist : Forall (lists_active (table st)) out -> table st' = table st ->
            table st' = table st
            /\ exists views live,
                 payload e = StreamsList views (length views) live
                 /\ map sv_stream views = Prisma.findMany (lit "active") (table st)).
  { intros H Ht. split; [done|]. rewrite Forall_forall in H. by apply (H e He). }
  assert (Hother : forall names, Forall (named names) out ->
            ~ In "streams-list"%string names -> False).
  { intros names H Hnot. rewrite Forall_forall in H. specialize (H e He).
    unfold named in H. by rewrite Hev in H. }
  destruct ev as [id user|id name data|id|ms|]; simpl in Hstep.
  - destruct (sockets st !! id); [done|]. apply result_eq in Hstep as [-> ->].
    apply Hlist; [|done].
    unfold onConnection. rewrite !seq_run. cbn [fst snd modify app].
    constructor; [intros H; discriminate H|].
    apply (snapshot_lists_active (Socket.fresh id user)
             (socket_join id id (with_sockets _ st))).
  - destruct (sockets st !! id) as [socket|]; [|done].
    apply result_eq in Hstep as [-> ->].
    destruct (String.eqb name "get_streams") eqn:Hname.
    + apply String.eqb_eq in Hname as ->.
      apply Hlist; [|done]. apply snapshot_lists_active.
    + exfalso. eapply Hother; [apply (dispatch_other_events socket name data Hname)|].
      simpl. intuition discriminate.
  - destruct (sockets st !! id) as [socket|]; [|done].
    apply result_eq in Hstep as [-> ->].
    exfalso. eapply Hother; [apply (handleDisconnect_events socket)|].
    simpl. intuition discriminate.
  - apply result_eq in Hstep as [-> ->].
    assert (Ht : table (fst (elapse ms st)) = table st).
    { assert (H : preserves (has table (table st)) (elapse ms)).
      { intros s Hs. unfold elapse. apply preserves_seq; [| |done].
        - apply (preserves_foldr _ (fun e => fire (fst e))).
          intros x. unfold fire. preserve. by intros ? <-.
        - apply preserves_modify. by intros ? <-. }
      by apply H. }
    apply Hlist; [|done].
    unfold elapse. rewrite seq_run. cbn [snd modify]. rewrite app_nil_r.
    apply fire_all_lists_active.
  - apply result_eq in Hstep as [-> ->].
    exfalso. eapply Hother; [apply (check_events st)|].
    simpl. intuition discriminate.
Qed.

End StreamsList.

(** The broadcast pending in [alice_live] lists Alice's stream. *)
Lemma streams_list_shows_active_streams_witness :
  let st := Scenario.alice_live in
  table (next st (Elapse 100)) = table st
  /\ exists views live,
       payload (default (unavailable []) (head (Scenario.output st (Elapse 100))))
       = StreamsList views (length views) live
       /\ map sv_stream views = Prisma.findMany (lit "active") (table st).
Proof.
  intros st.
  apply (streams_list_shows_active_streams JSON_parse_rejecting st
           (next st (Elapse 100)) (Elapse 100) (Scenario.output st (Elapse 100))).
  - vm_compute. reflexivity.
  - vm_compute. apply list_elem_of_here.
  - vm_compute. reflexivity.
Defined.

(** ** Watching *)

Section Watching.

Variable JSON_parse : jsstring -> option JsValue.

(** X12: [watch_live] for a stream that has no active record, because the
    id is unknown or the stream is not being broadcast, is answered with the
    error that the stream is not available, to the caller alone, and changes
    nothing: the caller joins no room and is not counted as a viewer. *)
Theorem watch_live_unavailable (st : State) (id : jsstring)
    (socket : AuthenticatedSocket) (data parsed : JsValue) (uid : jsstring) :
  reachable JSON_parse st ->
  sockets st !! id = Some socket ->
  parseSocketData JSON_parse data socket = (parsed, []) ->
  truthy parsed = true ->
  field parsed "streamUid" = JString uid ->
  (forall r, r ∈ table st -> Prisma.uid r = uid ->
             Prisma.status r <> Some (lit "active")) ->
  step JSON_parse st (Message id "watch_live" data) = Some (st, [unavailable id]).
Proof.
  intros Hr Hs Hp Ht Hu Hnone.
  destruct (reachable_sockets_ok _ _ Hr _ _ Hs) as [Hid _].
  unfold step. rewrite Hs. f_equal.
  change (dispatch JSON_parse socket "watch_live" data)
    with (handleWatchLive JSON_parse socket data).
  unfold handleWatchLive, with_parsed. rewrite Hp, Ht, Hu.
  unfold Prisma.findFirst. rewrite find_nothing.
  - unfold reply, emit, unavailable. by rewrite Hid.
  - intros r Hin. destruct (Prisma.has_uid uid r) eqn:Hk; [|done].
    apply eqb_true in Hk. specialize (Hnone r Hin Hk).
    unfold Prisma.has_status. destruct (Prisma.status r) as [v|]; [|done].
    simpl. apply eqb_false. congruence.
Qed.

(** X13: [stop_watching] clears the caller's viewer state whatever it was
    watching: afterwards the connection counts as a viewer of no stream,
    also of a stream whose room it is still in, it has left the room of the
    stream named, and its membership of every other room is as before. *)
Theorem stop_watching_clears_viewer_state (st st' : State) (id : jsstring)
    (socket : AuthenticatedSocket) (data parsed : JsValue) (uid : jsstring)
    (out : list Emission) :
  reachable JSON_parse st ->
  sockets st !! id = Some socket ->
  parseSocketData JSON_parse data socket = (parsed, []) ->
  truthy parsed = true ->
  field parsed "streamUid" = JString uid ->
  step JSON_parse st (Message id "stop_watching" data) = Some (st', out) ->
  live_viewer st' id = false
  /\ sockets st' !! id = Some (Socket.set_watching None false socket)
  /\ (id ∉ members (stream_room uid) st')
  /\ forall room, room <> stream_room uid -> members room st' = members room st.
Proof.
  intros Hr Hs Hp Ht Hu Hstep.
  destruct (reachable_sockets_ok _ _ Hr _ _ Hs) as [Hid _].
  unfold step in Hstep. rewrite Hs in Hstep.
  change (dispatch JSON_parse socket "stop_watching" data)
    with (handleStopWatching JSON_parse socket data) in Hstep.
  rewrite (handleStopWatching_run _ _ _ _ _ _ Hp Ht Hu), Hid in Hstep.
  apply result_eq in Hstep as [-> _]. cbn [fst].
  assert (Hsock : sockets (fst (scheduleBroadcastUpdate (stopped id uid st))) !! id
                  = Some (Socket.set_watching None false socket)).
  { change (sockets (fst (scheduleBroadcastUpdate (stopped id uid st))))
      with (alter (Socket.set_watching None false) id (sockets st)).
    by rewrite lookup_alter_eq, Hs. }
  split; [|split; [done|split]].
  - unfold live_viewer. by rewrite Hsock.
  - change (members (stream_room uid) (fst (scheduleBroadcastUpdate (stopped id uid st))))
      with (members (stream_room uid) (stopped id uid st)).
    rewrite members_stopped. intros Hin. by apply not_in_without in Hin.
  - intros room Hne. unfold members.
    change (rooms (fst (scheduleBroadcastUpdate (stopped id uid st))))
      with (<[stream_room uid := without id (members (stream_room uid) st)]> (rooms st)).
    by rewrite lookup_insert_ne.
Qed.

End Watching.

(** Vera asks for [S3], which is offline. *)
Lemma watch_live_unavailable_witness :
  step JSON_parse_rejecting Scenario.vera_watching
    (Message Scenario.v1 "watch_live" (stream_data Scenario.S3))
  = Some (Scenario.vera_watching, [unavailable Scenario.v1]).
Proof.
  apply (watch_live_unavailable JSON_parse_rejecting Scenario.vera_watching
           Scenario.v1 Scenario.vera_viewing (stream_data Scenario.S3)
           (stream_data Scenario.S3) Scenario.S3).
  - apply after_reachable. vm_compute. eauto.
  - vm_compute. reflexivity.
  - reflexivity.
  - reflexivity.
  - reflexivity.
  - intros r Hr Hk. vm_compute in Hr.
    repeat (apply elem_of_cons in Hr as [->|Hr]; [vm_compute; discriminate|]).
    by apply elem_of_nil in Hr.
Defined.

(** Vera, who watched [S1] and then [S2], stops watching [S2]: she is still
    in the room of [S1] and counts as a viewer of neither. *)
Lemma stop_watching_clears_viewer_state_witness :
  let st := Scenario.vera_switched in
  let ev := Message Scenario.v1 "stop_watching" (stream_data Scenario.S2) in
  live_viewer (next st ev) Scenario.v1 = false
  /\ sockets (next st ev) !! Scenario.v1
     = Some (Socket.set_watching None false
               (Socket.mk Scenario.v1 Scenario.vera true false None
                  (Some Scenario.S2) true))
  /\ (Scenario.v1 ∉ members (stream_room Scenario.S2) (next st ev))
  /\ forall room, room <> stream_room Scenario.S2 ->
       members room (next st ev) = members room st.
Proof.
  intros st ev.
  apply (stop_watching_clears_viewer_state JSON_parse_rejecting st (next st ev)
           Scenario.v1 _ (stream_data Scenario.S2) (stream_data Scenario.S2)
           Scenario.S2 (Scenario.output st ev)).
  - apply after_reachable. vm_compute. eauto.
  - vm_compute. reflexivity.
  - reflexivity.
  - reflexivity.
  - reflexivity.
  - vm_compute. reflexivity.
Defined.

(** ** Bare keys *)

Lemma bare_after_words (w : bool) (run s : jsstring) :
  forallb is_word run = true ->
  has_bare_key w (run ++ s) = has_bare_key (w || negb (eqb run [])) s.
Proof.
  revert w. induction run as [|c run IH]; intros w Hrun; simpl.
  - by rewrite orb_false_r.
  - apply andb_true_iff in Hrun as [Hc Hrun]. rewrite Hc, IH by done.
    by rewrite orb_true_r.
Qed.

Lemma nonempty_snoc (run : jsstring) c : eqb (run ++ [c]) [] = false.
Proof. apply eqb_false. by destruct run. Qed.

Lemma forallb_snoc (run : jsstring) c :
  forallb is_word run = true -> is_word c = true ->
  forallb is_word (run ++ [c]) = true.
Proof. intros Hrun Hc. rewrite forallb_app, Hrun. simpl. by rewrite Hc. Qed.

Lemma quote_bare_keys_fixed (s : jsstring) : forall run,
  forallb is_word run = true ->
  has_bare_key (negb (eqb run [])) s = false ->
  quote_bare_keys_from run s = run ++ s.
Proof.
  induction s as [|c s IH]; intros run Hrun Hbare; simpl.
  - by rewrite app_nil_r.
  - simpl in Hbare. destruct (is_word c) eqn:Hc.
    + rewrite IH; [by rewrite <- app_assoc|by apply forallb_snoc|].
      by rewrite nonempty_snoc.
    + apply orb_false_iff in Hbare as [Hcolon Hbare]. rewrite Hcolon.
      by rewrite (IH [] eq_refl Hbare).
Qed.

Lemma quote_bare_keys_settled (s : jsstring) : forall run,
  forallb is_word run = true ->
  has_bare_key false (quote_bare_keys_from run s) = false.
Proof.
  induction s as [|c s IH]; intros run Hrun; simpl.
  - rewrite <- (app_nil_r run), bare_after_words by done. done.
  - destruct (is_word c) eqn:Hc; [by apply IH, forallb_snoc|].
    destruct ((c =? 58) && negb (eqb run [])) eqn:Hcolon.
    + change (has_bare_key false (34 :: run ++ 34 :: 58 :: quote_bare_keys_from [] s))
        with (has_bare_key false (run ++ 34 :: 58 :: quote_bare_keys_from [] s)).
      rewrite bare_after_words by done.
      change (has_bare_key (false || negb (eqb run []))
                (34 :: 58 :: quote_bare_keys_from [] s))
        with (has_bare_key false (quote_bare_keys_from [] s)).
      by apply IH.
    + rewrite bare_after_words by done. simpl. rewrite Hc, Hcolon.
      by apply IH.
Qed.

(** X14: quoting bare keys settles a text: the text it returns has no colon
    directly after a word character, and such a text is returned as it is,
    so quoting a second time changes nothing. *)
Theorem quote_bare_keys_idempotent (s : jsstring) :
  has_bare_key false (quote_bare_keys s) = false
  /\ quote_bare_keys (quote_bare_keys s) = quote_bare_keys s
  /\ (has_bare_key false s = false -> quote_bare_keys s = s).
Proof.
  pose proof (quote_bare_keys_settled s [] eq_refl) as H.
  split; [exact H|]. split.
  - by apply (quote_bare_keys_fixed _ [] eq_refl).
  - intros Hs. by apply (quote_bare_keys_fixed _ [] eq_refl).
Qed.

(** ** Viewer notifications *)

Lemma viewer_report_ext st st' e :
  sockets st' = sockets st -> rooms st' = rooms st ->
  viewer_report st e -> viewer_report st' e.
Proof.
  intros Hs Hr H Hev.
  destruct (H Hev) as (u & a & v & vs & room & b & H1 & H2 & H3 & H4 & H5).
  exists u, a, v, vs, room, b.
  unfold fetchSockets, members, live_viewer in *. rewrite Hs, Hr. auto.
Qed.

Lemma reports_notify streamUid action viewer :
  reports (notifyStreamerAboutViewers streamUid action viewer).
Proof.
  intros st. rewrite notify_state. unfold notifyStreamerAboutViewers.
  destruct (template_room streamUid) as [room|] eqn:Hroom; [|constructor].
  cbv zeta. destruct (List.find _ _) as [b|] eqn:Hb; [|constructor].
  repeat constructor. intros _. eexists _, _, _, _, room, b.
  split; [reflexivity|]. split; [done|]. split; [done|]. split; [done|].
  rewrite length_map. apply count_viewers.
Qed.

Lemma reports_silent a : silent a -> reports a.
Proof. intros H st. rewrite H. constructor. Qed.

Lemma reports_after a b : silent a -> reports b -> reports (a ;;; b).
Proof. intros Ha Hb st. rewrite seq_run, Ha. apply Hb. Qed.

Lemma reports_before a b : reports a -> silent b -> keeps_presence b -> reports (a ;;; b).
Proof.
  intros Ha Hb Hk st. rewrite seq_run, Hb, app_nil_r. cbn [fst snd].
  destruct (Hk (fst (a st))) as [Hs Hr].
  eapply Forall_impl; [apply Ha|]. intros e. by apply viewer_report_ext.
Qed.

Lemma reports_other names a :
  ~ In "viewer_update"%string names -> emits (named names) a -> reports a.
Proof.
  intros Hnot Ha st. eapply Forall_impl; [apply Ha|].
  intros e He Hev. unfold named in He. by rewrite Hev in He.
Qed.

Lemma silent_modify f : silent (modify f).
Proof. done. Qed.

Lemma silent_schedule : silent scheduleBroadcastUpdate.
Proof. done. Qed.

Lemma schedule_keeps_presence : keeps_presence scheduleBroadcastUpdate.
Proof. done. Qed.

Lemma reports_notify_schedule streamUid action viewer :
  reports (notifyStreamerAboutViewers streamUid action viewer ;;; scheduleBroadcastUpdate).
Proof.
  apply reports_before;
    [apply reports_notify|apply silent_schedule|apply schedule_keeps_presence].
Qed.

Lemma reports_error t p : reports (emit t "error" p).
Proof. intros st. repeat constructor. intros H. discriminate H. Qed.

Section ViewerUpdates.

Variable JSON_parse : jsstring -> option JsValue.

Lemma reports_with_parsed data socket k :
  (forall v, reports (k v)) -> reports (with_parsed JSON_parse data socket k).
Proof.
  intros Hk st. unfold with_parsed.
  destruct (parseSocketData JSON_parse data socket) as [v o] eqn:Hp.
  destruct (truthy v) eqn:Ht.
  - rewrite (parse_truthy_silent _ _ _ _ _ Hp Ht).
    specialize (Hk v st). by destruct (k v st).
  - cbn [fst snd]. pose proof (parse_output_errors JSON_parse data socket) as H.
    rewrite Hp in H. eapply Forall_impl; [exact H|].
    intros e He Hev. cbv beta in He. congruence.
Qed.

Lemma handleWatchLive_reports socket data :
  reports (handleWatchLive JSON_parse socket data).
Proof.
  unfold handleWatchLive. apply reports_with_parsed. intros v st.
  destruct (Prisma.findFirst _ _ _) as [[row|]|]; try apply reports_error.
  destruct (template_room _); [|apply reports_error].
  apply (reports_after _ _ (silent_modify _)).
  apply (reports_after _ _ (silent_modify _)).
  apply reports_notify_schedule.
Qed.

Lemma handleStopWatching_reports socket data :
  reports (handleStopWatching JSON_parse socket data).
Proof.
  unfold handleStopWatching. apply reports_with_parsed. intros v.
  cbv zeta. destruct (template_room _); [|by apply reports_silent].
  apply (reports_after _ _ (silent_modify _)).
  apply (reports_after _ _ (silent_modify _)).
  apply reports_notify_schedule.
Qed.

Lemma handleDisconnect_reports socket : reports (handleDisconnect socket).
Proof.
  unfold handleDisconnect. apply reports_after.
  - destruct (_ && _); [|done]. unfold unregisterActiveStreamer. by simpl.
  - destruct (truthy_uid _); [apply reports_notify_schedule|by apply reports_silent].
Qed.

Lemma dispatch_reports socket name data :
  reports (dispatch JSON_parse socket name data).
Proof.
  unfold dispatch.
  destruct (String.eqb name "watch_live"); [apply handleWatchLive_reports|].
  destruct (String.eqb name "stop_watching"); [apply handleStopWatching_reports|].
  apply (reports_other ["error"; "streams-list"; "new-message"; "user-typing";
                        "stream_started"; "stream_ended"]%string).
  { simpl. intuition discriminate. }
  assert (Hparse : Forall (named ["error"; "streams-list"; "new-message";
                                  "user-typing"; "stream_started";
                                  "stream_ended"]%string)
                     (snd (parseSocketData JSON_parse data socket))).
  { eapply Forall_impl; [apply (parse_output_errors JSON_parse)|].
    intros e He. unfold named. rewrite He. simpl. auto. }
  unfold handleStartStreaming, handleEndStreaming, handleSendMessage, handleTyping,
    sendInitialStreamsList.
  emitting; try exact Hparse; unfold named; simpl; auto 10.
Qed.

(** X15: every [viewer_update] the service sends goes to the first
    connection marked as broadcaster among the members of the stream's
    room, in the order they joined, and the total it reports is the number
    of members of that room that are marked as viewers and not as
    broadcasters, both read in the state the event leaves. *)
Theorem viewer_update_reports_the_room (st st' : State) (ev : Event)
    (out : list Emission) (e : Emission) :
  step JSON_parse st ev = Some (st', out) ->
  e ∈ out -> event e = "viewer_update"%string ->
  exists streamUid action viewer viewers room streamer,
    payload e = ViewerUpdate streamUid action viewer viewers (length viewers)
    /\ template_room streamUid = Some room
    /\ List.find Socket.isBroadcaster (fetchSockets room st') = Some streamer
    /\ target e = ToSocket (Socket.id streamer)
    /\ length viewers = length (List.filter (live_viewer st') (members room st')).
Proof.
  intros Hstep He Hev.
  assert (H : Forall (viewer_report st') out).
  { destruct ev as [id user|id name data|id|ms|]; simpl in Hstep.
    - destruct (sockets st !! id); [done|]. apply result_eq in Hstep as [-> ->].
      apply (reports_other ["user-info"; "streams-list"]%string);
        [simpl; intuition discriminate|apply onConnection_events].
    - destruct (sockets st !! id) as [socket|]; [|done].
      apply result_eq in Hstep as [-> ->]. apply dispatch_reports.
    - destruct (sockets st !! id) as [socket|]; [|done].
      apply result_eq in Hstep as [-> ->]. apply handleDisconnect_reports.
    - apply result_eq in Hstep as [-> ->].
      apply (reports_other ["streams-list"]%string);
        [simpl; intuition discriminate|apply elapse_events].
    - apply result_eq in Hstep as [-> ->].
      apply (reports_other ["stream_ended"]%string);
        [simpl; intuition discriminate|apply check_events]. }
  rewrite Forall_forall in H. by apply (H e He).
Qed.

End ViewerUpdates.

(** Vera starts watching [S1] while Alice is live on it. *)
Lemma viewer_update_reports_the_room_witness :
  let st := Scenario.after [Connection Scenario.a1 Scenario.alice;
                            Message Scenario.a1 "start_streaming"
                              (stream_data Scenario.S1);
                            Connection Scenario.v1 Scenario.vera] in
  let ev := Message Scenario.v1 "watch_live" (stream_data Scenario.S1) in
  let e := default (unavailable []) (head (Scenario.output st ev)) in
  exists streamUid action viewer viewers room streamer,
    payload e = ViewerUpdate streamUid action viewer viewers (length viewers)
    /\ template_room streamUid = Some room
    /\ List.find Socket.isBroadcaster (fetchSockets room (next st ev)) = Some streamer
    /\ target e = ToSocket (Socket.id streamer)
    /\ length viewers
       = length (List.filter (live_viewer (next st ev)) (members room (next st ev))).
Proof.
  intros st ev e.
  apply (viewer_update_reports_the_room JSON_parse_rejecting st (next st ev) ev
           (Scenario.output st ev) e).
  - vm_compute. reflexivity.
  - vm_compute. apply list_elem_of_here.
  - vm_compute. reflexivity.
Defined.

(** ** Ending a stream *)

Section Ending.

Variable JSON_parse : jsstring -> option JsValue.

(** X16: [end_streaming] from a connection with the streamer role ends any
    stream that has a record, whoever owns it and whoever broadcasts it:
    the record goes offline, the registry entry is removed and everyone is
    told with the reason [manual].  Only the caller's own broadcaster mark
    is cleared; every other connection, the one broadcasting the stream
    included, and every room are left as they are.  For a stream id without
    a record the caller gets the error reply and nothing changes. *)
Theorem end_streaming_asks_no_owner (st st' : State) (id : jsstring)
    (socket : AuthenticatedSocket) (data parsed : JsValue) (uid : jsstring)
    (out : list Emission) :
  reachable JSON_parse st ->
  sockets st !! id = Some socket ->
  is_metro_streamer (Socket.user socket) = true ->
  parseSocketData JSON_parse data socket = (parsed, []) ->
  truthy parsed = true ->
  field parsed "streamUid" = JString uid ->
  step JSON_parse st (Message id "end_streaming" data) = Some (st', out) ->
  (recorded uid st ->
     out = [ended_notice socket uid]
     /\ untracked uid st' /\ offline uid st'
     /\ sockets st' !! id = Some (Socket.set_broadcasting false None socket)
     /\ (forall i, i <> id -> sockets st' !! i = sockets st !! i)
     /\ rooms st' = rooms st)
  /\ (~ recorded uid st -> st' = st /\ out = [end_error id]).
Proof.
  intros Hr Hs Hrole Hp Ht Hu Hstep.
  destruct (reachable_sockets_ok _ _ Hr _ _ Hs) as [Hid _].
  unfold step in Hstep. rewrite Hs in Hstep.
  change (dispatch JSON_parse socket "end_streaming" data)
    with (if is_metro_streamer (Socket.user socket)
          then handleEndStreaming JSON_parse socket data else skip) in Hstep.
  rewrite Hrole in Hstep. unfold handleEndStreaming, with_parsed in Hstep.
  rewrite Hp, Ht, Hu in Hstep. unfold Prisma.findFirst in Hstep.
  destruct (Prisma.update (JString uid) (lit "offline") (table st))
    as [updated|] eqn:Hupd.
  - rewrite !seq_run in Hstep. unfold unregisterActiveStreamer in Hstep.
    cbn [as_string] in Hstep. cbn [fst snd modify emit app] in Hstep.
    apply result_eq in Hstep as [-> ->]. cbn [fst snd].
    split; [|intros Hnot; by apply update_rows in Hupd as [_ ?]].
    intros _. rewrite Hid. split; [reflexivity|]. split; [|split; [|split; [|split]]].
    + apply registry_get_delete.
    + intros r Hin Hk. by eapply update_sets_status.
    + change (alter (Socket.set_broadcasting false None) id (sockets st) !! id
              = Some (Socket.set_broadcasting false None socket)).
      by rewrite lookup_alter_eq, Hs.
    + intros i Hne.
      change (alter (Socket.set_broadcasting false None) id (sockets st) !! i
              = sockets st !! i).
      by rewrite lookup_alter_ne.
    + reflexivity.
  - unfold reply, emit in Hstep. apply result_eq in Hstep as [-> ->]. cbn [fst snd].
    split; [|intros _; by rewrite Hid].
    intros Hrec. unfold recorded in Hrec. simpl in Hupd. by rewrite Hrec in Hupd.
Qed.

End Ending.

(** Bob ends Alice's stream. *)
Lemma end_streaming_asks_no_owner_witness :
  let st := Scenario.alice_live in
  let ev := Message Scenario.b1 "end_streaming" (stream_data Scenario.S1) in
  (recorded Scenario.S1 st ->
     Scenario.output st ev = [ended_notice Scenario.bob_idle Scenario.S1]
     /\ untracked Scenario.S1 (next st ev) /\ offline Scenario.S1 (next st ev)
     /\ sockets (next st ev) !! Scenario.b1
        = Some (Socket.set_broadcasting false None Scenario.bob_idle)
     /\ (forall i, i <> Scenario.b1 -> sockets (next st ev) !! i = sockets st !! i)
     /\ rooms (next st ev) = rooms st)
  /\ (~ recorded Scenario.S1 st ->
      next st ev = st /\ Scenario.output st ev = [end_error Scenario.b1]).
Proof.
  intros st ev.
  apply (end_streaming_asks_no_owner JSON_parse_rejecting st (next st ev)
           Scenario.b1 Scenario.bob_idle (stream_data Scenario.S1)
           (stream_data Scenario.S1) Scenario.S1 (Scenario.output st ev)).
  - apply after_reachable. vm_compute. eauto.
  - vm_compute. reflexivity.
  - vm_compute. reflexivity.
  - reflexivity.
  - reflexivity.
  - reflexivity.
  - vm_compute. reflexivity.
Defined.

(** ** Joining a stream *)

Lemma members_joined id room st r i :
  i ∈ members r st -> i ∈ members r (socket_join id room st).
Proof.
  intros Hi. unfold socket_join, members at 1. cbn [rooms with_rooms].
  destruct (bool_decide (id ∈ members room st)); [done|].
  destruct (decide (r = room)) as [->|Hne].
  - rewrite lookup_insert_eq. simpl. apply elem_of_app. by left.
  - by rewrite lookup_insert_ne.
Qed.

Lemma joined_member id room st : id ∈ members room (socket_join id room st).
Proof.
  unfold socket_join, members at 1. cbn [rooms with_rooms].
  destruct (bool_decide (id ∈ members room st)) eqn:Hin.
  - by apply bool_decide_eq_true in Hin.
  - rewrite lookup_insert_eq. simpl. apply elem_of_app. right. apply list_elem_of_here.
Qed.

Section Joining.

Variable JSON_parse : jsstring -> option JsValue.

(** X17: [watch_live] for a stream with an active record marks the caller
    as a viewer of that stream and puts it in the stream's room, and takes
    no connection out of any room: a caller that was watching another
    stream stays a member of that stream's room.  Nothing is sent but
    viewer notifications. *)
Theorem watch_live_joins_without_leaving (st st' : State) (id : jsstring)
    (socket : AuthenticatedSocket) (data parsed : JsValue) (uid : jsstring)
    (row : Stream) (out : list Emission) :
  reachable JSON_parse st ->
  sockets st !! id = Some socket ->
  parseSocketData JSON_parse data socket = (parsed, []) ->
  truthy parsed = true ->
  field parsed "streamUid" = JString uid ->
  row ∈ table st -> Prisma.uid row = uid ->
  Prisma.status row = Some (lit "active") ->
  step JSON_parse st (Message id "watch_live" data) = Some (st', out) ->
  sockets st' !! id = Some (Socket.set_watching (Some uid) true socket)
  /\ id ∈ members (stream_room uid) st'
  /\ (forall room i, i ∈ members room st -> i ∈ members room st')
  /\ Forall (fun e => event e = "viewer_update"%string) out.
Proof.
  intros Hr Hs Hp Ht Hu Hrow Hk Hactive Hstep.
  destruct (reachable_sockets_ok _ _ Hr _ _ Hs) as [Hid _].
  unfold step in Hstep. rewrite Hs in Hstep.
  change (dispatch JSON_parse socket "watch_live" data)
    with (handleWatchLive JSON_parse socket data) in Hstep.
  unfold handleWatchLive, with_parsed in Hstep. rewrite Hp, Ht, Hu in Hstep.
  unfold Prisma.findFirst in Hstep.
  destruct (find _ (table st)) as [found|] eqn:Hfind.
  - unfold template_room in Hstep.
    cbn [toString fmap option_fmap option_map as_string] in Hstep.
    rewrite !seq_run in Hstep. cbn [fst snd modify app] in Hstep.
    rewrite notify_state, Hid in Hstep.
    apply result_eq in Hstep as [-> ->]. cbn [fst snd].
    split; [|split; [|split]].
    + change (alter (Socket.set_watching (Some uid) true) id (sockets st) !! id
              = Some (Socket.set_watching (Some uid) true socket)).
      by rewrite lookup_alter_eq, Hs.
    + apply (joined_member id (stream_room uid) st).
    + intros room i Hi. by apply (members_joined id (stream_room uid) st).
    + rewrite app_nil_r. apply notify_output.
  - exfalso. apply list_elem_of_In in Hrow.
    pose proof (find_none _ _ Hfind row Hrow) as H. cbv beta in H.
    unfold Prisma.has_uid, Prisma.has_status in H.
    rewrite Hk, Hactive, !eqb_refl in H. discriminate H.
Qed.

End Joining.

(** Vera, watching [S1], asks for [S2]. *)
Lemma watch_live_joins_without_leaving_witness :
  let st := Scenario.after [Connection Scenario.a1 Scenario.alice;
                            Connection Scenario.b1 Scenario.bob;
                            Message Scenario.a1 "start_streaming"
                              (stream_data Scenario.S1);
                            Message Scenario.b1 "start_streaming"
                              (stream_data Scenario.S2);
                            Connection Scenario.v1 Scenario.vera;
                            Message Scenario.v1 "watch_live"
                              (stream_data Scenario.S1)] in
  let ev := Message Scenario.v1 "watch_live" (stream_data Scenario.S2) in
  sockets (next st ev) !! Scenario.v1
  = Some (Socket.set_watching (Some Scenario.S2) true Scenario.vera_viewing)
  /\ Scenario.v1 ∈ members (stream_room Scenario.S2) (next st ev)
  /\ (forall room i, i ∈ members room st -> i ∈ members room (next st ev))
  /\ Forall (fun e => event e = "viewer_update"%string) (Scenario.output st ev).
Proof.
  intros st ev.
  apply (watch_live_joins_without_leaving JSON_parse_rejecting st (next st ev)
           Scenario.v1 Scenario.vera_viewing (stream_data Scenario.S2)
           (stream_data Scenario.S2) Scenario.S2
           (Prisma.mk Scenario.S2 (lit "Bob live") (lit "u-bob")
              (Some (lit "active")) None None None)
           (Scenario.output st ev)).
  - apply after_reachable. vm_compute. eauto.
  - vm_compute. reflexivity.
  - reflexivity.
  - reflexivity.
  - reflexivity.
  - vm_compute. apply list_elem_of_further, list_elem_of_here.
  - reflexivity.
  - reflexivity.
  - vm_compute. reflexivity.
Defined.
